(** * Stock forecasting pipeline of [app.py]

    A shallow embedding of the data pipeline of the Streamlit script
    [app.py]: flattening of the column labels returned by the price
    download, selection of the closing-price column, the summary
    statistics, the cleaning of the frame handed to the forecasting model
    and the construction of the forecast dates.

    Conventions of the embedding.
    - A Python [str] is a Rocq [string] whose characters are code points
      (below 256), not bytes of an encoding.
    - A column label is a [str] or a [tuple] of [str] (what a flat or a
      multi-level column index of price data holds).
    - A float is [Fin q] for the rational [q] it denotes, an infinity, or
      NaN. Float arithmetic rounds: the rounding of an exact result to a
      double (to an infinity beyond the range) is a parameter, [rnd].
    - A timestamp is a number of nanoseconds since the epoch, as in
      [datetime64[ns]].
    - The calls into pandas and Prophet are modelled by their documented
      behaviour on these data; the numerical fit and the predicted values
      of the model are parameters.
    - Of the calls that draw the page, the table of line 68 raises on
      duplicate column names; whether the table and the chart of lines
      68-80 render otherwise is a parameter. *)

From Stdlib Require Import List String Ascii Bool Arith ZArith QArith Lia.
From Stdlib Require Import Permutation Sorting.Mergesort Orders.
From Stdlib Require Import DecimalString DecimalN Sorting.Sorted Qabs Lqa NArith.
Import ListNotations.

Close Scope Q_scope.
Local Open Scope string_scope.
Local Open Scope list_scope.

(* ================================================================== *)
(** * Python strings *)

Module PyStr.

(** [str.isspace] on one character: the code points below 256 that
    Python classifies as whitespace. *)
Definition isspace (c : ascii) : bool :=
  let n := nat_of_ascii c in
  (Nat.leb 9 n && Nat.leb n 13) || (Nat.leb 28 n && Nat.leb n 32)
  || Nat.eqb n 133 || Nat.eqb n 160.

(** [sep.join(parts)] *)
Fixpoint join (sep : string) (parts : list string) : string :=
  match parts with
  | [] => ""
  | [p] => p
  | p :: rest => p ++ sep ++ join sep rest
  end.

(** [s.lstrip()] *)
Fixpoint lstrip (s : string) : string :=
  match s with
  | "" => ""
  | String c r => if isspace c then lstrip r else s
  end.

(** [s.rstrip()] *)
Fixpoint rstrip (s : string) : string :=
  match s with
  | "" => ""
  | String c r =>
      match rstrip r with
      | "" => if isspace c then "" else String c ""
      | r' => String c r'
      end
  end.

(** [s.strip()] *)
Definition strip (s : string) : string := rstrip (lstrip s).

(** [sub in s] for two strings: [sub] occurs in [s] as a substring. *)
Fixpoint contains (sub s : string) : bool :=
  prefix sub s ||
  match s with
  | "" => false
  | String _ r => contains sub r
  end.

(** No character of [s] satisfies [p]. *)
Fixpoint free_of (p : ascii -> bool) (s : string) : bool :=
  match s with
  | "" => true
  | String c r => negb (p c) && free_of p r
  end.

End PyStr.

(* ================================================================== *)
(** * Column labels *)

(** A label of [data.columns]: a string, or a tuple of strings when the
    download returns a multi-level column index. *)
Inductive Label : Type :=
| LStr (s : string)
| LTuple (parts : list string).

Definition isinstance_tuple (col : Label) : bool :=
  match col with
  | LTuple _ => true
  | LStr _ => false
  end.

Definition Label_eq_dec (a b : Label) : {a = b} + {a <> b}.
Proof.
  decide equality.
  - apply string_dec.
  - apply (list_eq_dec string_dec).
Defined.

Definition Label_eqb (a b : Label) : bool :=
  if Label_eq_dec a b then true else false.

(** ['Close' in col]: substring test on a string, membership test on a
    tuple. *)
Definition py_in (needle : string) (col : Label) : bool :=
  match col with
  | LStr s => PyStr.contains needle s
  | LTuple parts => existsb (String.eqb needle) parts
  end.

(** The expression of lines 56-57:
    ['_'.join(col).strip() if isinstance(col, tuple) else col]. *)
Definition normalize_key (col : Label) : Label :=
  match col with
  | LTuple parts => LStr (PyStr.strip (PyStr.join "_" parts))
  | LStr _ => col
  end.

(** The reading of the specification, for comparison: only the non-empty
    sub-labels of a tuple are joined. *)
Definition normalize_key_spec (col : Label) : Label :=
  match col with
  | LTuple parts =>
      LStr (PyStr.strip
              (PyStr.join "_" (filter (fun p => negb (String.eqb p "")) parts)))
  | LStr _ => col
  end.

(* ================================================================== *)
(** * Floats and timestamps *)

Inductive Float : Type :=
| Fin (q : Q)
| PInf
| NInf
| NaN.

Definition Timestamp : Type := Z.
Bind Scope Z_scope with Timestamp.

(** One day in nanoseconds. *)
Definition day : Z := 86400000000000.

Definition isnan (x : Float) : bool :=
  match x with NaN => true | _ => false end.

Definition isfinite (x : Float) : bool :=
  match x with Fin _ => true | _ => false end.

(** [np.isinf] *)
Definition isinf (x : Float) : bool :=
  match x with PInf | NInf => true | _ => false end.

Section FloatArithmetic.

(** The double that an exact result is rounded to: a finite double, or
    an infinity when the result is beyond the range of doubles. *)
Variable rnd : Q -> Float.

(** Float addition: the exact sum of two finite floats is rounded. *)
Definition fadd (a b : Float) : Float :=
  match a, b with
  | NaN, _ | _, NaN => NaN
  | Fin x, Fin y => rnd (x + y)
  | PInf, NInf | NInf, PInf => NaN
  | PInf, _ | _, PInf => PInf
  | NInf, _ | _, NInf => NInf
  end.

(** Division of a float by a positive count: a quotient by one is the
    float itself, any other quotient of a finite float is rounded. *)
Definition fdiv_count (a : Float) (n : nat) : Float :=
  match a with
  | Fin x => if Nat.eqb n 1 then Fin x
             else rnd (x / inject_Z (Z.of_nat n))
  | other => other
  end.

End FloatArithmetic.

(** [a <= b] on floats; false as soon as one side is NaN. *)
Definition fle (a b : Float) : bool :=
  match a, b with
  | NaN, _ | _, NaN => false
  | NInf, _ => true
  | _, PInf => true
  | Fin x, Fin y => Qle_bool x y
  | _, _ => false
  end.

Definition fmax (a b : Float) : Float := if fle a b then b else a.
Definition fmin (a b : Float) : Float := if fle b a then b else a.

(* ================================================================== *)
(** * Series reductions of pandas *)

Module Series.

(** The values a reduction with [skipna=True] looks at. *)
Definition skipna (s : list Float) : list Float :=
  filter (fun x => negb (isnan x)) s.

Section Rounded.

Variable rnd : Q -> Float.

(** The float sum of a column: the values added up in double
    arithmetic, from the first one on. *)
Definition sum (s : list Float) : Float :=
  match s with
  | [] => Fin 0
  | x :: xs => fold_left (fadd rnd) xs x
  end.

(** [s.mean()]: NaN entries are skipped; NaN when nothing is left,
    otherwise the float sum divided by the count. *)
Definition mean (s : list Float) : Float :=
  match skipna s with
  | [] => NaN
  | xs => fdiv_count rnd (sum xs) (List.length xs)
  end.

End Rounded.

(** [s.max()] *)
Definition max (s : list Float) : Float :=
  match skipna s with
  | [] => NaN
  | x :: xs => fold_left fmax xs x
  end.

(** [s.min()] *)
Definition min (s : list Float) : Float :=
  match skipna s with
  | [] => NaN
  | x :: xs => fold_left fmin xs x
  end.

End Series.

(* ================================================================== *)
(** * Data frames *)

(** A cell of a date column before [pd.to_datetime]: text, a timestamp,
    or the missing date. *)
Inductive DateCell : Type :=
| DText (s : string)
| DStamp (t : Timestamp)
| DNaT.

(** A cell of a value column before [pd.to_numeric]: text or a float
    (NaN is the missing value). *)
Inductive ValCell : Type :=
| VText (s : string)
| VFloat (x : Float).

(** The frame [data] returned by the download: the date index (named
    [Date], as the daily download names it) and the labelled price
    columns, each a float column with one entry per index entry. *)
Record DataFrame : Type := mkDataFrame {
  index : list DateCell;
  cols : list (Label * list Float)
}.

(** [data.columns] *)
Definition columns (data : DataFrame) : list Label := map fst (cols data).

(** [data.empty]: no row or no column. *)
Definition empty (data : DataFrame) : bool :=
  (Nat.eqb (List.length (index data)) 0) || (Nat.eqb (List.length (cols data)) 0).

(** [data.columns = labels]: relabels the columns by position; pandas
    raises [ValueError] when the number of labels differs from the number
    of columns. *)
Definition set_columns (data : DataFrame) (labels : list Label)
  : option DataFrame :=
  if Nat.eqb (List.length labels) (List.length (cols data))
  then Some {| index := index data;
               cols := combine labels (map snd (cols data)) |}
  else None.

(** [data[key]]: every column labelled [key], in column order. *)
Definition getitem (data : DataFrame) (key : Label) : list (list Float) :=
  map snd (filter (fun c => Label_eqb (fst c) key) (cols data)).

(** No label occurs twice. *)
Fixpoint distinct (labels : list Label) : bool :=
  match labels with
  | [] => true
  | col :: rest => negb (existsb (Label_eqb col) rest) && distinct rest
  end.

(** Lines 55-58. *)
Definition SchemaNormalizer (data : DataFrame) : option DataFrame :=
  set_columns data (map normalize_key (columns data)).

(** Line 61: [[col for col in data.columns if 'Close' in col]]. *)
Definition close_cols (data : DataFrame) : list Label :=
  filter (py_in "Close") (columns data).

(** Lines 62-65: [None] stands for the branch that reports that no
    'Close' column was found. *)
Definition ColumnResolver (data : DataFrame) : option Label :=
  match close_cols data with
  | [] => None
  | close_col :: _ => Some close_col
  end.

(** Lines 87-89. *)
Record SummaryStats : Type := mkStats {
  avg_price : Float;
  max_price : Float;
  min_price : Float
}.

Definition SummaryStatistics (rnd : Q -> Float) (s : list Float)
  : SummaryStats :=
  {| avg_price := Series.mean rnd s;
     max_price := Series.max s;
     min_price := Series.min s |}.

(* ================================================================== *)
(** * Cleaning of the frame handed to the model (lines 103-109) *)

(** The typed frame [df] after the coercions: column [ds] of dates
    ([None] is NaT) and column [y] of floats. *)
Definition Row : Type := (option Timestamp * Float)%type.

(** Lines 103-104: the close column next to the former index, under the
    names [ds] and [y]. *)
Definition prepare (idx : list DateCell) (series : list Float)
  : list (DateCell * ValCell) :=
  combine idx (map VFloat series).

(** What line 109 does to one float: an infinity becomes NaN. *)
Definition replace_inf (x : Float) : Float :=
  if isinf x then NaN else x.

(** [dropna(subset=['ds', 'y'])] keeps a row when neither cell is
    missing. *)
Definition notna_row (r : Row) : bool :=
  match fst r with
  | Some _ => negb (isnan (snd r))
  | None => false
  end.

(** A typed frame read again as an untyped one. *)
Definition recell (r : Row) : DateCell * ValCell :=
  (match fst r with Some t => DStamp t | None => DNaT end, VFloat (snd r)).

Section Validation.

(** The text parsers inside [pd.to_datetime] and [pd.to_numeric] (for
    dates, under the format pandas settles on for the column); with
    [errors='coerce'] text that does not parse gives NaT, respectively
    NaN. *)
Variable parse_datetime : string -> option Timestamp.
Variable parse_numeric : string -> Float.

(** [pd.to_datetime(_, errors='coerce')] on one cell. *)
Definition to_datetime (c : DateCell) : option Timestamp :=
  match c with
  | DText s => parse_datetime s
  | DStamp t => Some t
  | DNaT => None
  end.

(** [pd.to_numeric(_, errors='coerce')] on one cell. *)
Definition to_numeric (c : ValCell) : Float :=
  match c with
  | VText s => parse_numeric s
  | VFloat x => x
  end.

(** Lines 107-109, statement by statement. *)
Definition SeriesValidator (df : list (DateCell * ValCell)) : list Row :=
  let df := map (fun r => (to_datetime (fst r), snd r)) df in
  let df := map (fun r => (fst r, to_numeric (snd r))) df in
  let df := map (fun r => (fst r, replace_inf (snd r))) df in
  filter notna_row df.

(** The rows the specification keeps: the date parses and the value
    parses to a finite float. *)
Definition valid_row (r : DateCell * ValCell) : bool :=
  match to_datetime (fst r) with
  | Some _ => isfinite (to_numeric (snd r))
  | None => false
  end.

(** A kept row after coercion. *)
Definition coerce (r : DateCell * ValCell) : Row :=
  (to_datetime (fst r), to_numeric (snd r)).

End Validation.

(* ================================================================== *)
(** * Forecast dates (lines 111-119) *)

Module TimestampOrder <: TotalLeBool.
Definition t : Type := Z.
Definition leb : t -> t -> bool := Z.leb.
Lemma leb_total : forall a b, leb a b = true \/ leb b a = true.
Proof.
  intros a b. unfold leb.
  destruct (Z.leb a b) eqn:E; [now left | right].
  apply Z.leb_le. apply Z.leb_gt in E. lia.
Qed.
End TimestampOrder.

Module TimestampSort := Sort TimestampOrder.

(** The observations a fit works on: the rows of [df] as pairs of a date
    and a value; there are none when a date is missing (Prophet raises
    on a missing date). *)
Fixpoint history (df : list Row) : option (list (Timestamp * Float)) :=
  match df with
  | [] => Some []
  | (None, _) :: _ => None
  | (Some t, y) :: rest =>
      match history rest with
      | Some h => Some ((t, y) :: h)
      | None => None
      end
  end.

(** [history_dates] of a fitted model: the distinct dates of [ds] in
    ascending order. *)
Definition history_dates (ts : list Timestamp) : list Timestamp :=
  TimestampSort.sort (nodup Z.eq_dec ts).

(** The largest date of a non-empty column. *)
Definition max_date (ts : list Timestamp) : option Timestamp :=
  match ts with
  | [] => None
  | t :: rest => Some (fold_left Z.max rest t)
  end.

(** The smallest date of a non-empty column. *)
Definition min_date (ts : list Timestamp) : option Timestamp :=
  match ts with
  | [] => None
  | t :: rest => Some (fold_left Z.min rest t)
  end.

(** [pd.date_range(start, periods=n, freq='D')] *)
Definition date_range (start : Timestamp) (n : nat) : list Timestamp :=
  map (fun k => (start + Z.of_nat k * day)%Z) (seq 0 n).

(** [model.make_future_dataframe(periods)] with the defaults [freq='D']
    and [include_history=True]: one more date than asked for is
    generated from the last date of the history, the dates not after it
    are dropped, the first [periods] are kept and appended to the
    history. *)
Definition make_future_dataframe (history : list Timestamp) (periods : nat)
  : option (list Timestamp) :=
  match max_date history with
  | None => None
  | Some last_date =>
      let dates := date_range last_date (periods + 1) in
      let dates := filter (fun d => Z.ltb last_date d) dates in
      let dates := firstn periods dates in
      Some (history ++ dates)
  end.

(** A row of the frame [forecast]. *)
Record ForecastRow : Type := mkForecastRow {
  ds : Timestamp;
  yhat : Float;
  yhat_lower : Float;
  yhat_upper : Float
}.

(** What the forecasting block shows. *)
Inductive ForecastOutcome : Type :=
| NotEnoughData
| ProphetFailed (e : string)
| Forecast (forecast : list ForecastRow).

Section Forecasting.

(** The numerical side of Prophet: [fit] either raises (the text of the
    exception) or gives fitted parameters, and [predict_at] gives the
    three estimates of a date under these parameters. *)
Variable Params : Type.
Variable fit : list (Timestamp * Float) -> string + Params.
Variable predict_at : Params -> Timestamp -> Float * Float * Float.

(** [model.predict(future)]: the rows are put in date order and each
    gets its estimates. *)
Definition predict (m : Params) (future : list Timestamp) : list ForecastRow :=
  map (fun d => let '(y, lo, hi) := predict_at m d in
                {| ds := d; yhat := y; yhat_lower := lo; yhat_upper := hi |})
      (TimestampSort.sort future).

(** Lines 111-119 and the handler of lines 143-144. The guard of line
    111 comes first; past it every exception of the model ends in the
    handler. (A fitted model has a history, so the last failure below
    cannot happen.) *)
Definition Forecaster (df : list Row) (forecast_period : nat)
  : ForecastOutcome :=
  if Nat.ltb (List.length df) 2 then NotEnoughData
  else
    match history df with
    | None => ProphetFailed "Found NaN in column ds."
    | Some observed =>
        match fit observed with
        | inl e => ProphetFailed e
        | inr model =>
            let dates := history_dates (map fst observed) in
            match make_future_dataframe dates forecast_period with
            | None => ProphetFailed "Model has not been fit."
            | Some future => Forecast (predict model future)
            end
        end
    end.

(** The text shown with an outcome that is not a forecast (lines 112 and
    144, without the pictograph that starts each message). *)
Definition shown_message (o : ForecastOutcome) : option string :=
  match o with
  | NotEnoughData => Some "Not enough data points for Prophet model."
  | ProphetFailed e => Some ("Prophet model failed: " ++ e)%string
  | Forecast _ => None
  end.

End Forecasting.

(* ================================================================== *)
(** * The script as a whole (lines 46-147) *)

(** What a run ends with. *)
Inductive Report : Type :=
| FetchError
| NoData
| NoCloseColumn
| Page (close_col : Label) (stats : SummaryStats) (outcome : ForecastOutcome).

Section App.

Variable rnd : Q -> Float.
Variable parse_datetime : string -> option Timestamp.
Variable parse_numeric : string -> Float.
Variable Params : Type.
Variable fit : list (Timestamp * Float) -> string + Params.
Variable predict_at : Params -> Timestamp -> Float * Float * Float.

(** Whether the table of line 68 and the chart of lines 74-80 render a
    frame with distinct column names without raising. *)
Variable renders : DataFrame -> Label -> bool.

(** The body of the outer [try]. An exception outside the forecasting
    block ends in the handler of line 147 ([FetchError]): the relabelling
    when it raises, the table of line 68 on duplicate column names, the
    table or the chart when they do not render, and [float(...)] of line
    87 when [data[close_col]] is not a single column. *)
Definition app (data : DataFrame) (forecast_period : nat) : Report :=
  if empty data then NoData
  else
    match SchemaNormalizer data with
    | None => FetchError
    | Some data =>
        match ColumnResolver data with
        | None => NoCloseColumn
        | Some close_col =>
            if negb (distinct (columns data)) then FetchError
            else if negb (renders data close_col) then FetchError
            else
              match getitem data close_col with
              | [series] =>
                  let stats := SummaryStatistics rnd series in
                  let df :=
                    SeriesValidator parse_datetime parse_numeric
                      (prepare (index data) series) in
                  Page close_col stats
                    (Forecaster Params fit predict_at df forecast_period)
              | _ => FetchError
              end
        end
    end.

End App.

(* ================================================================== *)
(** * Vocabulary of the statements *)

(** [sub] occurs in [s]. *)
Definition Substring (sub s : string) : Prop :=
  exists pre post : string, s = (pre ++ sub ++ post)%string.

(** A label contains the needle, in the sense of Python's [in]. *)
Definition LabelHas (needle : string) (col : Label) : Prop :=
  match col with
  | LStr s => Substring needle s
  | LTuple parts => In needle parts
  end.




(** A date cell holds the calendar date [t]: it is that timestamp, or
    text that the parser reads as it. *)
Definition DateReads (parse_datetime : string -> option Timestamp)
           (c : DateCell) (t : Timestamp) : Prop :=
  c = DStamp t \/ exists s, c = DText s /\ parse_datetime s = Some t.

(** A value cell holds the finite number [q]: it is that float, or text
    that the parser reads as it. *)
Definition ValueReads (parse_numeric : string -> Float)
           (c : ValCell) (q : Q) : Prop :=
  c = VFloat (Fin q) \/ exists s, c = VText s /\ parse_numeric s = Fin q.

(** A validated series of the specification, as the typed frame [df]. *)
Definition frame_of (series : list (Timestamp * Q)) : list Row :=
  map (fun p => (Some (fst p), Fin (snd p))) series.

(** The dates that follow [last]: one per day, [n] of them. *)
Definition days_after (last : Timestamp) (n : nat) : list Timestamp :=
  map (fun k => (last + Z.of_nat k * day)%Z) (seq 1 n).

(** Every character of [s] is whitespace. *)
Definition AllSpace (s : string) : Prop :=
  PyStr.free_of (fun c => negb (PyStr.isspace c)) s = true.

(** [s] neither starts nor ends with whitespace. *)
Definition Trimmed (s : string) : Prop :=
  forall (c : ascii) (r : string),
    (s = String c r -> PyStr.isspace c = false) /\
    (s = (r ++ String c "")%string -> PyStr.isspace c = false).

(** The characters a sub-label must avoid for the flattening to be
    reversible: the separator and whitespace. *)
Definition is_sep (c : ascii) : bool := Ascii.eqb c "_"%char.

Definition clean_part (p : string) : bool :=
  PyStr.free_of (fun c => is_sep c || PyStr.isspace c) p.

(** Column labels on which the flattening cannot collide: all of them
    strings, or all of them non-empty tuples of clean sub-labels. *)
Definition Collision_free_labels (labels : list Label) : Prop :=
  Forall (fun l => isinstance_tuple l = false) labels \/
  Forall (fun l => exists parts, l = LTuple parts /\ parts <> [] /\
                               forallb clean_part parts = true) labels.

(* ================================================================== *)
(** * Presentation (lines 68, 91-94 and 141) *)

(** [frame.tail()]: the last five rows, all of them when there are
    fewer. *)
Definition tail {A : Type} (rows : list A) : list A :=
  skipn (List.length rows - 5) rows.

Module Format.

(** The integer nearest to a rational, a tie going to the even one: the
    rounding of a float to a given number of decimals. *)
Definition round_half_even (q : Q) : Z :=
  let n := Qnum q in
  let d := Zpos (Qden q) in
  let f := (n / d)%Z in
  match (2 * (n mod d) ?= d)%Z with
  | Lt => f
  | Gt => (f + 1)%Z
  | Eq => if Z.even f then f else (f + 1)%Z
  end.

(** The decimal digits of a natural number. *)
Definition digits (n : N) : string := NilEmpty.string_of_uint (N.to_uint n).

(** The thousands separators of the [,] option, on digits given from the
    last one to the first: a comma after every three digits that are
    followed by more. *)
Fixpoint group3 (l : list ascii) : list ascii :=
  match l with
  | a :: b :: c :: rest =>
      match rest with
      | [] => l
      | _ => a :: b :: c :: ","%char :: group3 rest
      end
  | _ => l
  end.

Definition group (s : string) : string :=
  string_of_list_ascii (rev (group3 (rev (list_ascii_of_string s)))).

(** The two decimals. *)
Definition two_digits (n : N) : string :=
  if (n <? 10)%N then ("0" ++ digits n)%string else digits n.

(** [f"{x:,.2f}"]: sign, integer part with thousands separators, point
    and two decimals of the value rounded to hundredths. *)
Definition comma_2f (x : Float) : string :=
  match x with
  | NaN => "nan"
  | PInf => "inf"
  | NInf => "-inf"
  | Fin q =>
      let c := Z.to_N (round_half_even (Qabs q * 100)) in
      ((if Z.ltb (Qnum q) 0 then "-" else "")
       ++ group (digits (c / 100)) ++ "." ++ two_digits (c mod 100))%string
  end.

End Format.

(** Lines 92-94: the three figures shown (without the currency sign in
    front of each). *)
Definition metrics (stats : SummaryStats) : string * string * string :=
  (Format.comma_2f (avg_price stats),
   Format.comma_2f (max_price stats),
   Format.comma_2f (min_price stats)).

(** Reading a figure back: the text without its commas, split at the
    point, as a number of hundredths. *)
Definition remove_commas (s : string) : string :=
  string_of_list_ascii
    (filter (fun c => negb (Ascii.eqb c ",")) (list_ascii_of_string s)).

Fixpoint split_point (s : string) : option (string * string) :=
  match s with
  | "" => None
  | String c r =>
      if Ascii.eqb c "." then Some ("", r)
      else match split_point r with
           | Some (a, b) => Some (String c a, b)
           | None => None
           end
  end.

Definition read_digits (s : string) : option N :=
  option_map N.of_uint (NilEmpty.uint_of_string s).

Definition read_figure (s : string) : option Q :=
  let (negative, body) :=
    match s with
    | String c r => if Ascii.eqb c "-" then (true, r) else (false, s)
    | "" => (false, s)
    end in
  match split_point body with
  | Some (whole, decimals) =>
      match read_digits (remove_commas whole), read_digits decimals with
      | Some a, Some b =>
          let v := (Z.of_N (a * 100 + b) # 100)%Q in
          Some (if negative then (- v)%Q else v)
      | _, _ => None
      end
  | None => None
  end.


(** A label as downloaded names a closing price: it contains ["Close"],
    or, for a tuple, one of its sub-labels does. *)
Definition NamesClose (col : Label) : Prop :=
  match col with
  | LStr s => Substring "Close" s
  | LTuple parts => exists p, In p parts /\ Substring "Close" p
  end.

(* ================================================================== *)
(** * Facts about Python strings *)

Section StringFacts.

Local Open Scope string_scope.

Lemma prefix_split (p s : string) :
  prefix p s = true <-> exists r : string, s = p ++ r.
Proof.
  revert s; induction p as [|c p IH]; intros s.
  - simpl. split; [intros _; now exists s | destruct s; reflexivity].
  - destruct s as [|d s]; simpl.
    + split; [discriminate | intros [r H]; discriminate].
    + destruct (ascii_dec c d) as [->|Hcd].
      * rewrite IH. split; intros [r H]; exists r; [now subst | now inversion H].
      * split; [discriminate | intros [r H]; inversion H; congruence].
Qed.

Lemma contains_Substring (sub s : string) :
  PyStr.contains sub s = true <-> Substring sub s.
Proof.
  induction s as [|c s IH]; cbn [PyStr.contains].
  - rewrite orb_false_r, prefix_split. split.
    + intros [r H]. exists "", r. exact H.
    + intros [pre [post H]]. destruct pre; [now exists post | discriminate].
  - rewrite orb_true_iff, prefix_split, IH. split.
    + intros [[r H] | [pre [post H]]].
      * exists "", r. exact H.
      * exists (String c pre), post. simpl. now rewrite H.
    + intros [pre [post H]]. destruct pre as [|d pre].
      * left. now exists post.
      * right. exists pre, post. simpl in H. now inversion H.
Qed.

Lemma py_in_LabelHas (needle : string) (col : Label) :
  py_in needle col = true <-> LabelHas needle col.
Proof.
  destruct col as [s|parts]; simpl.
  - apply contains_Substring.
  - rewrite existsb_exists. split.
    + intros [x [Hin Hx]]. apply String.eqb_eq in Hx. now subst.
    + intros Hin. exists needle. split; [exact Hin | apply String.eqb_refl].
Qed.

Lemma py_in_false (needle : string) (col : Label) :
  py_in needle col = false <-> ~ LabelHas needle col.
Proof.
  rewrite <- py_in_LabelHas. destruct (py_in needle col).
  - split; [discriminate | intros H; now contradiction H].
  - split; [intros _ H; discriminate | reflexivity].
Qed.

Lemma lstrip_split (s : string) :
  exists lead : string, s = lead ++ PyStr.lstrip s /\ AllSpace lead.
Proof.
  induction s as [|c s [lead [Hs Hl]]]; simpl.
  - now exists "".
  - destruct (PyStr.isspace c) eqn:Hc.
    + exists (String c lead). split; [simpl; now rewrite <- Hs |].
      unfold AllSpace; simpl. now rewrite Hc.
    + now exists "".
Qed.

Lemma rstrip_split (s : string) :
  exists trail : string, s = PyStr.rstrip s ++ trail /\ AllSpace trail.
Proof.
  induction s as [|c s [trail [Hs Hl]]]; simpl.
  - now exists "".
  - destruct (PyStr.rstrip s) as [|d r] eqn:Hr.
    + destruct (PyStr.isspace c) eqn:Hc.
      * exists (String c trail). split; [simpl in Hs |- *; congruence |].
        unfold AllSpace; simpl. now rewrite Hc.
      * exists trail. split; [simpl in Hs |- *; congruence | exact Hl].
    + exists trail. split; [simpl in Hs |- *; congruence | exact Hl].
Qed.

Lemma lstrip_head (s : string) (c : ascii) (r : string) :
  PyStr.lstrip s = String c r -> PyStr.isspace c = false.
Proof.
  induction s as [|d s IH]; simpl; [discriminate |].
  destruct (PyStr.isspace d) eqn:Hd; [exact IH |].
  intros H; inversion H; now subst.
Qed.

Lemma rstrip_last (s : string) (c : ascii) (r : string) :
  PyStr.rstrip s = r ++ String c "" -> PyStr.isspace c = false.
Proof.
  revert r; induction s as [|d s IH]; intros r; simpl.
  - destruct r; discriminate.
  - destruct (PyStr.rstrip s) as [|e t] eqn:Hr.
    + destruct (PyStr.isspace d) eqn:Hd; destruct r as [|x r]; simpl;
        intros H; try discriminate; inversion H; subst; try assumption.
      destruct r; discriminate.
    + destruct r as [|x r]; simpl; intros H; inversion H; subst.
      now apply (IH r).
Qed.

Lemma rstrip_head (s : string) (c : ascii) (r : string) :
  PyStr.rstrip s = String c r -> exists r', s = String c r'.
Proof.
  destruct s as [|d s]; simpl; [discriminate |].
  destruct (PyStr.rstrip s); [destruct (PyStr.isspace d) |]; intros H;
    inversion H; subst; eauto.
Qed.

Lemma strip_split (s : string) :
  exists lead trail : string,
    s = lead ++ PyStr.strip s ++ trail /\ AllSpace lead /\ AllSpace trail.
Proof.
  destruct (lstrip_split s) as [lead [Hs Hl]].
  destruct (rstrip_split (PyStr.lstrip s)) as [trail [Ht Hr]].
  exists lead, trail. unfold PyStr.strip. rewrite <- Ht. auto.
Qed.

Lemma strip_Trimmed (s : string) : Trimmed (PyStr.strip s).
Proof.
  intros c r. unfold PyStr.strip. split; intros H.
  - destruct (rstrip_head _ _ _ H) as [r' H'].
    now apply lstrip_head in H'.
  - now apply rstrip_last in H.
Qed.

Lemma free_of_weaken (p q : ascii -> bool) (s : string) :
  (forall c, q c = true -> p c = true) ->
  PyStr.free_of p s = true -> PyStr.free_of q s = true.
Proof.
  intros Hpq. induction s as [|c s IH]; simpl; [reflexivity |].
  rewrite !andb_true_iff, !negb_true_iff. intros [Hc Hs]. split; [| auto].
  destruct (q c) eqn:Hq; [| reflexivity]. apply Hpq in Hq. congruence.
Qed.

Lemma free_of_app (p : ascii -> bool) (a b : string) :
  PyStr.free_of p (a ++ b) = PyStr.free_of p a && PyStr.free_of p b.
Proof.
  induction a as [|c a IH]; simpl; [reflexivity |].
  now rewrite IH, andb_assoc.
Qed.

Lemma lstrip_id (s : string) :
  PyStr.free_of PyStr.isspace s = true -> PyStr.lstrip s = s.
Proof.
  destruct s as [|c s]; simpl; [reflexivity |].
  rewrite andb_true_iff, negb_true_iff. now intros [-> _].
Qed.

Lemma rstrip_id (s : string) :
  PyStr.free_of PyStr.isspace s = true -> PyStr.rstrip s = s.
Proof.
  induction s as [|c s IH]; simpl; [reflexivity |].
  rewrite andb_true_iff, negb_true_iff. intros [Hc Hs].
  rewrite (IH Hs), Hc. now destruct s.
Qed.

Lemma strip_id (s : string) :
  PyStr.free_of PyStr.isspace s = true -> PyStr.strip s = s.
Proof.
  intros H. unfold PyStr.strip. rewrite (lstrip_id _ H). now apply rstrip_id.
Qed.

End StringFacts.

(* ================================================================== *)
(** * Flattening of the column labels *)

Section JoinFacts.

Local Open Scope string_scope.

Lemma free_of_join (p : ascii -> bool) (sep : string) (parts : list string) :
  PyStr.free_of p sep = true ->
  forallb (PyStr.free_of p) parts = true ->
  PyStr.free_of p (PyStr.join sep parts) = true.
Proof.
  intros Hsep. induction parts as [|a [|b rest] IH]; intros H.
  - reflexivity.
  - simpl in *. now rewrite andb_true_r in H.
  - change (PyStr.join sep (a :: b :: rest))
      with (a ++ sep ++ PyStr.join sep (b :: rest)).
    change (forallb (PyStr.free_of p) (a :: b :: rest))
      with (PyStr.free_of p a && forallb (PyStr.free_of p) (b :: rest)) in H.
    apply andb_true_iff in H as [Ha Hr].
    now rewrite !free_of_app, Ha, Hsep, (IH Hr).
Qed.

Lemma sep_splits_once (a b x y : string) :
  PyStr.free_of is_sep a = true -> PyStr.free_of is_sep b = true ->
  a ++ String "_" x = b ++ String "_" y -> a = b /\ x = y.
Proof.
  revert b; induction a as [|c a IH]; intros [|d b]; simpl; intros Ha Hb H.
  - inversion H. now split.
  - inversion H; subst. discriminate Hb.
  - inversion H; subst. discriminate Ha.
  - inversion H; subst.
    apply andb_true_iff in Ha as [_ Ha]. apply andb_true_iff in Hb as [_ Hb].
    destruct (IH b Ha Hb H2) as [-> ->]. now split.
Qed.

Lemma sep_absent (a b y : string) :
  PyStr.free_of is_sep a = true -> a <> b ++ String "_" y.
Proof.
  intros Ha ->. rewrite free_of_app in Ha. simpl in Ha.
  now rewrite andb_false_r in Ha.
Qed.

Lemma join_injective (l1 l2 : list string) :
  l1 <> [] -> l2 <> [] ->
  forallb (PyStr.free_of is_sep) l1 = true ->
  forallb (PyStr.free_of is_sep) l2 = true ->
  PyStr.join "_" l1 = PyStr.join "_" l2 -> l1 = l2.
Proof.
  revert l2. induction l1 as [|a [|a' r1] IH]; intros l2 N1 N2 H1 H2 E;
    [contradiction |..];
    destruct l2 as [|b [|b' r2]]; [contradiction | | | contradiction | |].
  - simpl in E. now subst.
  - exfalso. simpl in H1. rewrite andb_true_r in H1.
    change (PyStr.join "_" [a]) with a in E.
    change (PyStr.join "_" (b :: b' :: r2))
      with (b ++ String "_" (PyStr.join "_" (b' :: r2))) in E.
    exact (sep_absent _ _ _ H1 E).
  - exfalso. simpl in H2. rewrite andb_true_r in H2.
    change (PyStr.join "_" [b]) with b in E.
    change (PyStr.join "_" (a :: a' :: r1))
      with (a ++ String "_" (PyStr.join "_" (a' :: r1))) in E.
    exact (sep_absent _ _ _ H2 (eq_sym E)).
  - change (PyStr.join "_" (a :: a' :: r1))
      with (a ++ String "_" (PyStr.join "_" (a' :: r1))) in E.
    change (PyStr.join "_" (b :: b' :: r2))
      with (b ++ String "_" (PyStr.join "_" (b' :: r2))) in E.
    change (forallb (PyStr.free_of is_sep) (a :: a' :: r1))
      with (PyStr.free_of is_sep a
            && forallb (PyStr.free_of is_sep) (a' :: r1)) in H1.
    change (forallb (PyStr.free_of is_sep) (b :: b' :: r2))
      with (PyStr.free_of is_sep b
            && forallb (PyStr.free_of is_sep) (b' :: r2)) in H2.
    apply andb_true_iff in H1 as [Ha Hr1]. apply andb_true_iff in H2 as [Hb Hr2].
    destruct (sep_splits_once _ _ _ _ Ha Hb E) as [-> E'].
    f_equal. apply IH; [discriminate | discriminate | assumption..].
Qed.

Lemma forallb_weaken {A} (p q : A -> bool) (l : list A) :
  (forall x, p x = true -> q x = true) ->
  forallb p l = true -> forallb q l = true.
Proof.
  intros Hpq. rewrite !forallb_forall. auto.
Qed.

Lemma clean_tuple_flat (parts : list string) :
  forallb clean_part parts = true ->
  normalize_key (LTuple parts) = LStr (PyStr.join "_" parts).
Proof.
  intros H. simpl. f_equal. apply strip_id. apply free_of_join; [reflexivity |].
  revert H. apply forallb_weaken. intros p. unfold clean_part.
  apply free_of_weaken. intros c ->. apply orb_true_r.
Qed.

Lemma clean_tuples_distinct (p1 p2 : list string) :
  p1 <> [] -> p2 <> [] ->
  forallb clean_part p1 = true -> forallb clean_part p2 = true ->
  normalize_key (LTuple p1) = normalize_key (LTuple p2) -> p1 = p2.
Proof.
  intros N1 N2 C1 C2. rewrite !clean_tuple_flat by assumption.
  intros E. inversion E as [E']. apply join_injective; try assumption.
  - revert C1. apply forallb_weaken. intros p. unfold clean_part.
    apply free_of_weaken. intros c ->. reflexivity.
  - revert C2. apply forallb_weaken. intros p. unfold clean_part.
    apply free_of_weaken. intros c ->. reflexivity.
Qed.

Lemma join_nonempty_parts (parts : list string) :
  (forall p, In p parts -> p <> "") ->
  filter (fun p => negb (String.eqb p "")) parts = parts.
Proof.
  intros H. apply forallb_filter_id. apply forallb_forall. intros p Hp.
  apply negb_true_iff. apply String.eqb_neq. now apply H.
Qed.

End JoinFacts.

Section FrameFacts.

Lemma combine_fst_snd {A B} (l : list (A * B)) (f : A -> A) :
  combine (map f (map fst l)) (map snd l) = map (fun c => (f (fst c), snd c)) l.
Proof.
  induction l as [|[a b] l IH]; simpl; [reflexivity | now rewrite IH].
Qed.

(** The relabelling never raises: there are as many new labels as
    columns. *)
Lemma SchemaNormalizer_relabels (data : DataFrame) :
  SchemaNormalizer data =
    Some {| index := index data;
            cols := map (fun c => (normalize_key (fst c), snd c)) (cols data) |}.
Proof.
  unfold SchemaNormalizer, set_columns, columns.
  rewrite !length_map, Nat.eqb_refl. now rewrite combine_fst_snd.
Qed.

Lemma relabelled_columns (data : DataFrame) :
  columns {| index := index data;
             cols := map (fun c => (normalize_key (fst c), snd c)) (cols data) |}
  = map normalize_key (columns data).
Proof.
  unfold columns; simpl. now rewrite !map_map.
Qed.

Lemma filter_first_match {A} (p : A -> bool) (l : list A) :
  match filter p l with
  | [] => forall x, In x l -> p x = false
  | c :: _ => exists pre post,
      l = pre ++ c :: post /\ p c = true /\ forall x, In x pre -> p x = false
  end.
Proof.
  induction l as [|a l IH]; simpl.
  - intros x [].
  - destruct (p a) eqn:Ha.
    + exists [], l. repeat split; [exact Ha | intros x []].
    + destruct (filter p l) as [|c rest].
      * intros x [<- | Hx]; auto.
      * destruct IH as [pre [post [-> [Hc Hpre]]]].
        exists (a :: pre), post. repeat split; [exact Hc |].
        intros x [<- | Hx]; auto.
Qed.

End FrameFacts.

(* ================================================================== *)
(** * SchemaNormalizer and ColumnResolver *)

(** C4, as the code behaves: a flat key passes through unchanged; a tuple
    key becomes a string [flat], never a tuple, where [flat] is the join
    of ALL its sub-labels (empty ones included) with an underscore, minus
    the whitespace around it: the join is [lead ++ flat ++ trail] with
    [lead] and [trail] made of whitespace only and [flat] neither starting
    nor ending with whitespace. When no sub-label is empty this is the
    join of the non-empty sub-labels, as the specification words it. *)
Theorem normalize_key_flattens_all_parts (col : Label) :
  isinstance_tuple (normalize_key col) = false /\
  match col with
  | LStr s => normalize_key col = LStr s
  | LTuple parts =>
      (exists flat lead trail : string,
          normalize_key col = LStr flat /\
          PyStr.join "_" parts = (lead ++ flat ++ trail)%string /\
          AllSpace lead /\ AllSpace trail /\ Trimmed flat) /\
      ((forall p, In p parts -> p <> ""%string) ->
       normalize_key col = normalize_key_spec col)
  end.
Proof.
  destruct col as [s|parts]; simpl; split; try reflexivity.
  split.
  - destruct (strip_split (PyStr.join "_" parts)) as [lead [trail [E [Hl Ht]]]].
    exists (PyStr.strip (PyStr.join "_" parts)), lead, trail.
    repeat split; try assumption; apply strip_Trimmed.
  - intros H. now rewrite join_nonempty_parts.
Qed.

(** The label of the comment of line 53, and one with whitespace around
    it. *)
Example normalize_key_examples :
  normalize_key (LTuple ["Close"; "TCS.NS"]) = LStr "Close_TCS.NS" /\
  normalize_key (LTuple [" Close"; "TCS.NS "]) = LStr "Close_TCS.NS" /\
  normalize_key (LStr " Close ") = LStr " Close ".
Proof. repeat split. Qed.

(** C4, the claim as worded fails: an empty sub-label is joined like any
    other, so [('Close', '')] flattens to ["Close_"], while joining the
    non-empty sub-labels only would give ["Close"]. *)
Lemma normalize_key_keeps_empty_parts :
  normalize_key (LTuple ["Close"; ""]) = LStr "Close_" /\
  normalize_key_spec (LTuple ["Close"; ""]) = LStr "Close" /\
  normalize_key (LTuple ["Close"; ""])
    <> normalize_key_spec (LTuple ["Close"; ""]).
Proof.
  repeat split. discriminate.
Qed.

(** C10: the relabelling always goes through; the result has one label
    per input column, the flattened label of the column at the same
    position, and the index (row count and row order) and the cells of
    every column are those of the input. *)
Theorem SchemaNormalizer_frame (data : DataFrame) :
  exists data',
    SchemaNormalizer data = Some data' /\
    List.length (cols data') = List.length (cols data) /\
    columns data' = map normalize_key (columns data) /\
    index data' = index data /\
    map snd (cols data') = map snd (cols data).
Proof.
  eexists. split; [apply SchemaNormalizer_relabels |].
  rewrite relabelled_columns. cbn [cols index].
  rewrite length_map, map_map. repeat split.
Qed.

(** C5, the claim as worded fails: the two-level labels
    [('Close', 'A_B')] and [('Close_A', 'B')] both flatten to
    ["Close_A_B"]; the relabelling succeeds and the frame keeps both
    columns under that one name. *)
Lemma SchemaNormalizer_tolerates_collision :
  exists data',
    SchemaNormalizer
      {| index := [DStamp 0];
         cols := [(LTuple ["Close"; "A_B"], [Fin 1]);
                  (LTuple ["Close_A"; "B"], [Fin 2])] |} = Some data' /\
    columns data' = [LStr "Close_A_B"; LStr "Close_A_B"] /\
    ~ NoDup (columns data').
Proof.
  eexists. split; [reflexivity |]. split; [reflexivity |].
  intros H. inversion H as [|x l Hin _]; subst. apply Hin. now left.
Qed.

(** C5, as the code behaves: no collision is detected. The relabelling
    always succeeds and keeps every column; distinct output names come
    from distinct input labels, and the output names are pairwise
    distinct whenever the input labels are pairwise distinct and are
    either all strings or all non-empty tuples of sub-labels free of
    underscores and whitespace. *)
Theorem SchemaNormalizer_detects_no_collision (data : DataFrame) :
  exists data',
    SchemaNormalizer data = Some data' /\
    List.length (cols data') = List.length (cols data) /\
    (NoDup (columns data') -> NoDup (columns data)) /\
    (NoDup (columns data) -> Collision_free_labels (columns data) ->
     NoDup (columns data')).
Proof.
  eexists. split; [apply SchemaNormalizer_relabels |].
  rewrite relabelled_columns. cbn [cols]. rewrite length_map.
  split; [reflexivity |]. split; [apply NoDup_map_inv |].
  intros Hnd Hfree. apply NoDup_map_NoDup_ForallPairs; [| exact Hnd].
  intros x y Hx Hy E. destruct Hfree as [Hflat | Htup].
  - rewrite Forall_forall in Hflat.
    pose proof (Hflat x Hx) as Fx. pose proof (Hflat y Hy) as Fy.
    destruct x, y; simpl in *; congruence.
  - rewrite Forall_forall in Htup.
    destruct (Htup x Hx) as [px [-> [Nx Cx]]].
    destruct (Htup y Hy) as [py [-> [Ny Cy]]].
    f_equal. now apply clean_tuples_distinct.
Qed.

(** C2: the resolver returns the first column label, in column order,
    that contains ["Close"] (for a string label: as a substring, with
    this exact capitalisation); it reports that there is none exactly
    when no label contains it; its answer depends on the column labels
    only; and on Open, High, Low, Close_AAPL, Volume it answers
    Close_AAPL. *)
Theorem ColumnResolver_first_match (data : DataFrame) :
  match ColumnResolver data with
  | Some close_col =>
      exists pre post,
        columns data = pre ++ close_col :: post /\
        LabelHas "Close" close_col /\
        forall col, In col pre -> ~ LabelHas "Close" col
  | None => forall col, In col (columns data) -> ~ LabelHas "Close" col
  end /\
  (forall data', columns data' = columns data ->
                 ColumnResolver data' = ColumnResolver data) /\
  (forall idx o h l c v,
      ColumnResolver
        {| index := idx;
           cols := [(LStr "Open", o); (LStr "High", h); (LStr "Low", l);
                    (LStr "Close_AAPL", c); (LStr "Volume", v)] |}
      = Some (LStr "Close_AAPL")) /\
  (forall idx c,
      ColumnResolver {| index := idx; cols := [(LStr "close", c)] |} = None).
Proof.
  split; [| split; [| split]].
  - unfold ColumnResolver, close_cols.
    pose proof (filter_first_match (py_in "Close") (columns data)) as H.
    destruct (filter (py_in "Close") (columns data)) as [|c rest].
    + intros col Hin. apply py_in_false. now apply H.
    + destruct H as [pre [post [E [Hc Hpre]]]]. exists pre, post.
      repeat split; [exact E | now apply py_in_LabelHas |].
      intros col Hin. apply py_in_false. now apply Hpre.
  - intros data' E. unfold ColumnResolver, close_cols. now rewrite E.
  - reflexivity.
  - reflexivity.
Qed.

(* ================================================================== *)
(** * SeriesValidator *)

Section ValidationFacts.

Variable parse_datetime : string -> option Timestamp.
Variable parse_numeric : string -> Float.

Local Abbreviation validate := (SeriesValidator parse_datetime parse_numeric).
Local Abbreviation valid := (valid_row parse_datetime parse_numeric).
Local Abbreviation typed := (coerce parse_datetime parse_numeric).

Lemma valid_row_iff (r : DateCell * ValCell) :
  valid r = true <->
  exists t q, to_datetime parse_datetime (fst r) = Some t /\
              to_numeric parse_numeric (snd r) = Fin q.
Proof.
  unfold valid_row.
  destruct (to_datetime parse_datetime (fst r)) as [t|];
    destruct (to_numeric parse_numeric (snd r)) as [q| | |]; simpl; split;
    try discriminate; try (intros [t' [q' [H1 H2]]]; discriminate);
    try reflexivity.
  intros _. now exists t, q.
Qed.

Lemma SeriesValidator_cons (r : DateCell * ValCell) (df : list (DateCell * ValCell)) :
  validate (r :: df) =
    if valid r then typed r :: validate df else validate df.
Proof.
  unfold SeriesValidator, valid_row, coerce, notna_row, replace_inf. simpl.
  destruct (to_datetime parse_datetime (fst r)); [| reflexivity].
  now destruct (to_numeric parse_numeric (snd r)).
Qed.

Lemma SeriesValidator_filter (df : list (DateCell * ValCell)) :
  validate df = map typed (filter valid df).
Proof.
  induction df as [|r df IH]; [reflexivity |].
  rewrite SeriesValidator_cons. simpl.
  destruct (valid r); simpl; now rewrite IH.
Qed.

Lemma SeriesValidator_typed (df : list (DateCell * ValCell)) :
  exists series, validate df = frame_of series.
Proof.
  induction df as [|r df [series IH]].
  - now exists [].
  - rewrite SeriesValidator_cons. destruct (valid r) eqn:Hr.
    + apply valid_row_iff in Hr as [t [q [Ht Hq]]].
      exists ((t, q) :: series). unfold coerce. simpl. now rewrite Ht, Hq, IH.
    + now exists series.
Qed.

Lemma SeriesValidator_fixes_validated (series : list (Timestamp * Q)) :
  validate (map recell (frame_of series)) = frame_of series.
Proof.
  induction series as [|[t q] series IH]; [reflexivity |].
  simpl. rewrite SeriesValidator_cons. now rewrite IH.
Qed.

Lemma SeriesValidator_app (df1 df2 : list (DateCell * ValCell)) :
  validate (df1 ++ df2) = validate df1 ++ validate df2.
Proof.
  rewrite !SeriesValidator_filter. now rewrite filter_app, map_app.
Qed.

Lemma reads_typed (r : DateCell * ValCell) (t : Timestamp) (q : Q) :
  DateReads parse_datetime (fst r) t -> ValueReads parse_numeric (snd r) q ->
  valid r = true /\ typed r = (Some t, Fin q).
Proof.
  destruct r as [d v]. unfold valid_row, coerce. cbn [fst snd].
  intros [-> | [s [-> Hs]]] [-> | [u [-> Hu]]]; cbn [to_datetime to_numeric];
    rewrite ?Hs, ?Hu; now split.
Qed.

Lemma unread_invalid (r : DateCell * ValCell) :
  (forall t, ~ DateReads parse_datetime (fst r) t) \/
  (forall q, ~ ValueReads parse_numeric (snd r) q) ->
  valid r = false.
Proof.
  destruct r as [d v]. cbn [fst snd]. intros H.
  destruct (valid (d, v)) eqn:E; [| reflexivity].
  apply valid_row_iff in E as [t [q [Ht Hq]]]. cbn [fst snd] in Ht, Hq.
  exfalso. destruct H as [H | H].
  - apply (H t). destruct d as [s | t' |]; cbn in Ht.
    + right. now exists s.
    + left. now injection Ht as ->.
    + discriminate.
  - apply (H q). destruct v as [u | x]; cbn in Hq.
    + right. now exists u.
    + left. now subst.
Qed.

(** C1: the cleaned frame consists of the typed forms of exactly the
    input rows whose date parses and whose value parses to a finite
    float, in their input order, and no input makes the cleaning fail.
    Cell by cell: a row whose date cell is a timestamp, or text that
    parses to a date, and whose value cell is a finite float, or text
    that parses to one, is kept in its place with that date and that
    value; a row whose date is missing or does not parse, or whose value
    is NaN, an infinity or text that does not parse to a finite float,
    is dropped, and the rows around it are cleaned as before. Every row
    that is kept has a date and a finite value. *)
Theorem SeriesValidator_keeps_valid_rows (df : list (DateCell * ValCell)) :
  validate df = map typed (filter valid df) /\
  (forall r, valid r = true <->
             exists t q, to_datetime parse_datetime (fst r) = Some t /\
                         to_numeric parse_numeric (snd r) = Fin q) /\
  (forall row, In row (validate df) -> exists t q, row = (Some t, Fin q)) /\
  (forall before d v after t q,
      DateReads parse_datetime d t -> ValueReads parse_numeric v q ->
      validate (before ++ (d, v) :: after)
      = validate before ++ (Some t, Fin q) :: validate after) /\
  (forall before d v after,
      (forall t, ~ DateReads parse_datetime d t) \/
      (forall q, ~ ValueReads parse_numeric v q) ->
      validate (before ++ (d, v) :: after)
      = validate before ++ validate after) /\
  (forall t q, DateReads parse_datetime (DStamp t) t /\
               ValueReads parse_numeric (VFloat (Fin q)) q) /\
  (forall t q, ~ DateReads parse_datetime DNaT t /\
               ~ ValueReads parse_numeric (VFloat NaN) q /\
               ~ ValueReads parse_numeric (VFloat PInf) q /\
               ~ ValueReads parse_numeric (VFloat NInf) q).
Proof.
  split; [apply SeriesValidator_filter |]. split; [apply valid_row_iff |].
  split; [| split; [| split; [| split]]].
  - intros row Hin. destruct (SeriesValidator_typed df) as [series E].
    rewrite E in Hin. unfold frame_of in Hin. apply in_map_iff in Hin.
    destruct Hin as [[t q] [<- _]]. now exists t, q.
  - intros before d v after t q Hd Hv.
    destruct (reads_typed (d, v) t q Hd Hv) as [Hvalid Htyped].
    now rewrite SeriesValidator_app, SeriesValidator_cons, Hvalid, Htyped.
  - intros before d v after H.
    now rewrite SeriesValidator_app, SeriesValidator_cons,
      (unread_invalid (d, v) H).
  - intros t q. split; now left.
  - intros t q. repeat split; intros [H | [s [H _]]]; discriminate.
Qed.

(** C9: cleaning again changes nothing. A series of dated finite values,
    read as a frame, is returned as it is; hence the cleaning of any
    frame is a fixed point of the cleaning. *)
Theorem SeriesValidator_idempotent :
  (forall series : list (Timestamp * Q),
      validate (map recell (frame_of series)) = frame_of series) /\
  (forall df : list (DateCell * ValCell),
      validate (map recell (validate df)) = validate df).
Proof.
  split; [apply SeriesValidator_fixes_validated |].
  intros df. destruct (SeriesValidator_typed df) as [series ->].
  apply SeriesValidator_fixes_validated.
Qed.

End ValidationFacts.

(** The scenario of the specification: of three daily rows with closes
    100, NaN and 102 the middle one is dropped. *)
Example SeriesValidator_scenario :
  SeriesValidator (fun _ => None) (fun _ => NaN)
    (prepare [DStamp 0; DStamp day; DStamp (2 * day)]
             [Fin 100; NaN; Fin 102])
  = frame_of [(0%Z, 100%Q); ((2 * day)%Z, 102%Q)].
Proof. reflexivity. Qed.

(* ================================================================== *)
(** * SummaryStatistics *)

Section StatsFacts.








End StatsFacts.



(** The scenario of the specification: the statistics of the closes 100,
    NaN, 102 are 101 (as the fraction 202/2; no operation rounds here),
    102 and 100. *)
Example SummaryStatistics_scenario :
  SummaryStatistics (fun q => Fin q) [Fin 100; NaN; Fin 102]
  = {| avg_price := Fin (202 # 2); max_price := Fin 102; min_price := Fin 100 |}
  /\ (202 # 2 == 101)%Q.
Proof. split; reflexivity. Qed.

(* ================================================================== *)
(** * Forecaster *)

(** C7: with fewer than two rows the forecasting block stops at its
    guard: no forecast is made and the page says that there are not
    enough data points, whatever the model would do. The statistics of
    the values of a one-row frame are all that one value. *)
Theorem Forecaster_needs_two_points
    (rnd : Q -> Float)
    (Params : Type) (fit : list (Timestamp * Float) -> string + Params)
    (predict_at : Params -> Timestamp -> Float * Float * Float)
    (df : list Row) (forecast_period : nat) :
  List.length df < 2 ->
  Forecaster Params fit predict_at df forecast_period = NotEnoughData /\
  shown_message (Forecaster Params fit predict_at df forecast_period)
    = Some "Not enough data points for Prophet model."%string /\
  (forall t q, df = frame_of [(t, q)] ->
     exists mean,
       SummaryStatistics rnd (map snd df)
         = {| avg_price := Fin mean; max_price := Fin q; min_price := Fin q |} /\
       (mean == q)%Q).
Proof.
  intros H. unfold Forecaster.
  destruct (Nat.ltb_spec (List.length df) 2) as [_ | Hge]; [| lia].
  repeat split. intros t q ->. exists q. split; [reflexivity |].
  apply Qeq_refl.
Qed.

(** The guard on a one-row frame with the close 100. *)
Lemma Forecaster_needs_two_points_witness :
  Forecaster unit (fun _ => inr tt) (fun _ _ => (NaN, NaN, NaN))
             (frame_of [(0%Z, 100%Q)]) 30 = NotEnoughData /\
  exists mean,
    SummaryStatistics (fun q => Fin q) (map snd (frame_of [(0%Z, 100%Q)]))
      = {| avg_price := Fin mean; max_price := Fin 100; min_price := Fin 100 |} /\
    (mean == 100)%Q.
Proof.
  destruct (Forecaster_needs_two_points (fun q => Fin q) unit (fun _ => inr tt)
              (fun _ _ => (NaN, NaN, NaN)) (frame_of [(0%Z, 100%Q)]) 30)
    as [H1 [_ H3]].
  - simpl. lia.
  - split; [exact H1 | exact (H3 0%Z 100%Q eq_refl)].
Defined.

Section ForecastFacts.

Local Open Scope Z_scope.

Lemma day_positive : 0 < day.
Proof. reflexivity. Qed.

Lemma fold_max_bounds (l : list Z) (t : Z) :
  (fold_left Z.max l t = t \/ In (fold_left Z.max l t) l) /\
  t <= fold_left Z.max l t /\
  forall x, In x l -> x <= fold_left Z.max l t.
Proof.
  revert t; induction l as [|a l IH]; intros t; simpl.
  - repeat split; [now left | lia | intros x []].
  - destruct (IH (Z.max t a)) as [Hin [Hle Hall]]. repeat split.
    + destruct Hin as [E | Hin]; [| right; now right].
      rewrite E. destruct (Z.max_spec t a) as [[_ ->] | [_ ->]];
        [right; now left | now left].
    + lia.
    + intros x [<- | Hx]; [lia | now apply Hall].
Qed.

Lemma fold_min_bounds (l : list Z) (t : Z) :
  (fold_left Z.min l t = t \/ In (fold_left Z.min l t) l) /\
  fold_left Z.min l t <= t /\
  forall x, In x l -> fold_left Z.min l t <= x.
Proof.
  revert t; induction l as [|a l IH]; intros t; simpl.
  - repeat split; [now left | lia | intros x []].
  - destruct (IH (Z.min t a)) as [Hin [Hle Hall]]. repeat split.
    + destruct Hin as [E | Hin]; [| right; now right].
      rewrite E. destruct (Z.min_spec t a) as [[_ ->] | [_ ->]];
        [now left | right; now left].
    + lia.
    + intros x [<- | Hx]; [lia | now apply Hall].
Qed.

(** [max_date] gives the element that bounds all the others. *)
Lemma max_date_iff (l : list Timestamp) (m : Timestamp) :
  max_date l = Some m <-> In m l /\ forall x, In x l -> x <= m.
Proof.
  destruct l as [|t l]; simpl.
  - split; [discriminate | intros [[] _]].
  - destruct (fold_max_bounds l t) as [Hin [Hle Hall]]. split.
    + intros E. injection E as <-. split.
      * destruct Hin as [-> | Hin]; [now left | now right].
      * intros x [<- | Hx]; [exact Hle | now apply Hall].
    + intros [Hm Hub]. apply (f_equal (@Some Z)). apply Z.le_antisymm.
      * apply Hub. destruct Hin as [-> | Hin]; [now left | now right].
      * destruct Hm as [<- | Hm]; [exact Hle | now apply Hall].
Qed.

Lemma min_date_iff (l : list Timestamp) (m : Timestamp) :
  min_date l = Some m <-> In m l /\ forall x, In x l -> m <= x.
Proof.
  destruct l as [|t l]; simpl.
  - split; [discriminate | intros [[] _]].
  - destruct (fold_min_bounds l t) as [Hin [Hle Hall]]. split.
    + intros E. injection E as <-. split.
      * destruct Hin as [-> | Hin]; [now left | now right].
      * intros x [<- | Hx]; [exact Hle | now apply Hall].
    + intros [Hm Hlb]. apply (f_equal (@Some Z)). apply Z.le_antisymm.
      * destruct Hm as [<- | Hm]; [exact Hle | now apply Hall].
      * apply Hlb. destruct Hin as [-> | Hin]; [now left | now right].
Qed.

Lemma history_dates_In (ts : list Timestamp) (x : Timestamp) :
  In x (history_dates ts) <-> In x ts.
Proof.
  unfold history_dates. rewrite <- (nodup_In Z.eq_dec ts x). split.
  - apply Permutation_in, Permutation_sym, TimestampSort.Permuted_sort.
  - apply Permutation_in, TimestampSort.Permuted_sort.
Qed.

Lemma filter_length_Permutation {A} (p : A -> bool) (l l' : list A) :
  Permutation l l' ->
  List.length (filter p l) = List.length (filter p l').
Proof.
  induction 1 as [| x l l' _ IH | x y l | l l' l'' _ IH1 _ IH2]; simpl.
  - reflexivity.
  - destruct (p x); simpl; now rewrite IH.
  - destruct (p x), (p y); reflexivity.
  - now rewrite IH1.
Qed.

Lemma filter_none {A} (p : A -> bool) (l : list A) :
  (forall x, In x l -> p x = false) -> filter p l = [].
Proof.
  induction l as [|a l IH]; intros H; simpl; [reflexivity |].
  rewrite (H a (or_introl eq_refl)). apply IH. intros x Hx. apply H. now right.
Qed.

Lemma days_after_In (last : Timestamp) (n : nat) (x : Timestamp) :
  In x (days_after last n) <->
  exists k : nat, (1 <= k <= n)%nat /\ x = last + Z.of_nat k * day.
Proof.
  unfold days_after. rewrite in_map_iff. split.
  - intros [k [<- Hk]]. apply in_seq in Hk. exists k. split; [lia | reflexivity].
  - intros [k [Hk ->]]. exists k. split; [reflexivity |]. apply in_seq. lia.
Qed.

Lemma days_after_later (last : Timestamp) (n : nat) (x : Timestamp) :
  In x (days_after last n) -> last < x <= last + Z.of_nat n * day.
Proof.
  intros H. apply days_after_In in H as [k [Hk ->]].
  pose proof day_positive. nia.
Qed.

Lemma future_dates (last : Timestamp) (periods : nat) :
  firstn periods
    (filter (fun d => Z.ltb last d) (date_range last (periods + 1)))
  = days_after last periods.
Proof.
  unfold date_range. rewrite Nat.add_1_r, <- cons_seq. cbn [map filter].
  replace (last <? last + Z.of_nat 0 * day) with false
    by (symmetry; apply Z.ltb_ge; lia).
  fold (days_after last periods).
  rewrite forallb_filter_id.
  - apply firstn_all2. unfold days_after. now rewrite length_map, length_seq.
  - apply forallb_forall. intros x Hx. apply days_after_later in Hx.
    apply Z.ltb_lt. lia.
Qed.

Lemma make_future_dataframe_dates
      (history : list Timestamp) (last : Timestamp) (periods : nat) :
  max_date history = Some last ->
  make_future_dataframe history periods
  = Some (history ++ days_after last periods)%list.
Proof.
  intros H. unfold make_future_dataframe. rewrite H. now rewrite future_dates.
Qed.

Lemma history_frame_of (series : list (Timestamp * Q)) :
  history (frame_of series) = Some (map (fun p => (fst p, Fin (snd p))) series).
Proof.
  induction series as [|[t q] series IH]; [reflexivity |].
  change (frame_of ((t, q) :: series))
    with ((Some t, Fin q) :: frame_of series).
  cbn [history map fst snd]. now rewrite IH.
Qed.

Lemma predict_dates (Params : Type)
      (predict_at : Params -> Timestamp -> Float * Float * Float)
      (m : Params) (future : list Timestamp) :
  map ds (predict Params predict_at m future) = TimestampSort.sort future.
Proof.
  unfold predict. rewrite map_map. rewrite <- map_id. apply map_ext.
  intros d. now destruct (predict_at m d) as [[y lo] hi].
Qed.

End ForecastFacts.

(** C6: for a validated series of at least two points on which the fit
    goes through, and any horizon, the forecast is produced; its dates
    run from the earliest date of the series to the latest date of the
    series plus the horizon in days, and exactly as many of its rows as
    the horizon are dated after the latest date of the series. *)
Theorem Forecaster_horizon
    (Params : Type) (fit : list (Timestamp * Float) -> string + Params)
    (predict_at : Params -> Timestamp -> Float * Float * Float)
    (series : list (Timestamp * Q)) (forecast_period : nat) (model : Params) :
  2 <= List.length series ->
  fit (map (fun p => (fst p, Fin (snd p))) series) = inr model ->
  exists forecast first last,
    Forecaster Params fit predict_at (frame_of series) forecast_period
      = Forecast forecast /\
    min_date (map fst series) = Some first /\
    max_date (map fst series) = Some last /\
    min_date (map ds forecast) = Some first /\
    max_date (map ds forecast)
      = Some (last + Z.of_nat forecast_period * day)%Z /\
    List.length (filter (fun row => Z.ltb last (ds row)) forecast)
      = forecast_period.
Proof.
  intros Hlen Hfit.
  set (dates := map fst series).
  assert (exists first, min_date dates = Some first) as [first Hfirst].
  { subst dates. destruct series; [simpl in Hlen; lia | simpl; eauto]. }
  assert (exists last, max_date dates = Some last) as [last Hlast].
  { subst dates. destruct series; [simpl in Hlen; lia | simpl; eauto]. }
  pose proof (proj1 (min_date_iff _ _) Hfirst) as [Hfin Hfle].
  pose proof (proj1 (max_date_iff _ _) Hlast) as [Hlin Hlle].
  assert (max_date (history_dates dates) = Some last) as Hmax.
  { apply max_date_iff. split; [now apply history_dates_In |].
    intros x Hx. apply Hlle. now apply history_dates_In. }
  set (future := (history_dates dates ++ days_after last forecast_period)%list).
  assert (forall x, In x (TimestampSort.sort future) <->
                    In x dates \/ In x (days_after last forecast_period))
    as Hsorted.
  { intros x. split.
    - intros Hx.
      apply (Permutation_in _
               (Permutation_sym (TimestampSort.Permuted_sort future))) in Hx.
      apply in_app_iff in Hx as [Hx | Hx];
        [left; now apply history_dates_In | now right].
    - intros Hx. apply (Permutation_in _ (TimestampSort.Permuted_sort future)).
      apply in_app_iff.
      destruct Hx as [Hx | Hx]; [left; now apply history_dates_In | now right]. }
  exists (predict Params predict_at model future), first, last.
  split; [| split; [exact Hfirst | split; [exact Hlast | split; [| split]]]].
  - unfold Forecaster.
    replace (List.length (frame_of series)) with (List.length series)
      by (unfold frame_of; now rewrite length_map).
    destruct (Nat.ltb_spec (List.length series) 2) as [Hlt | _]; [lia |].
    rewrite history_frame_of, Hfit, map_map. cbn [fst].
    fold dates. now rewrite (make_future_dataframe_dates _ last).
  - rewrite predict_dates. apply min_date_iff. split.
    + apply Hsorted. now left.
    + intros x Hx. apply Hsorted in Hx as [Hx | Hx]; [now apply Hfle |].
      apply days_after_later in Hx. specialize (Hfle last Hlin). lia.
  - rewrite predict_dates. apply max_date_iff. split.
    + apply Hsorted. destruct forecast_period as [|n].
      * left. now replace (last + Z.of_nat 0 * day)%Z with last by lia.
      * right. apply days_after_In. exists (S n). split; [lia | reflexivity].
    + intros x Hx. pose proof day_positive.
      apply Hsorted in Hx as [Hx | Hx].
      * specialize (Hlle x Hx). nia.
      * apply days_after_later in Hx. lia.
  - rewrite <- (length_map ds),
      <- (filter_map_swap (fun d => Z.ltb last d) ds).
    rewrite predict_dates.
    rewrite <- (filter_length_Permutation _ _ _ (TimestampSort.Permuted_sort future)).
    subst future. rewrite filter_app, length_app.
    rewrite (filter_none _ (history_dates dates)).
    + rewrite forallb_filter_id.
      * unfold days_after. now rewrite length_map, length_seq.
      * apply forallb_forall. intros x Hx. apply days_after_later in Hx.
        apply Z.ltb_lt. lia.
    + intros x Hx. apply (proj1 (history_dates_In _ _)) in Hx.
      apply Hlle in Hx. apply Z.ltb_ge. exact Hx.
Qed.

(** Two daily closes, given out of order, and a horizon of three days:
    the forecast runs from day 0 to day 4 and three of its rows are
    dated after day 1. *)
Lemma Forecaster_horizon_witness :
  exists forecast,
    Forecaster unit (fun _ => inr tt) (fun _ _ => (NaN, NaN, NaN))
      (frame_of [(day, 100%Q); (0%Z, 102%Q)]) 3 = Forecast forecast /\
    min_date (map ds forecast) = Some 0%Z /\
    max_date (map ds forecast) = Some (4 * day)%Z /\
    List.length (filter (fun row => Z.ltb day (ds row)) forecast) = 3.
Proof.
  destruct (Forecaster_horizon unit (fun _ => inr tt)
              (fun _ _ => (NaN, NaN, NaN))
              [(day, 100%Q); (0%Z, 102%Q)] 3 tt)
    as [forecast [first [last [H1 [H2 [H3 [H4 [H5 H6]]]]]]]].
  - simpl. lia.
  - reflexivity.
  - injection H2 as <-. injection H3 as <-.
    exists forecast. repeat split; assumption.
Defined.


(* ================================================================== *)
(** * Which column the script takes for the closing price *)

Section MatchFacts.

Local Open Scope string_scope.

Lemma append_empty_r (s : string) : s ++ "" = s.
Proof. induction s as [|c s IH]; simpl; [reflexivity | now rewrite IH]. Qed.

Lemma append_assoc (a b c : string) : (a ++ b) ++ c = a ++ b ++ c.
Proof. induction a as [|x a IH]; simpl; [reflexivity | now rewrite IH]. Qed.

Lemma Substring_tail (sub s : string) (c : ascii) :
  Substring sub s -> Substring sub (String c s).
Proof. intros [pre [post ->]]. now exists (String c pre), post. Qed.

Lemma Substring_left (sub a b : string) :
  Substring sub a -> Substring sub (a ++ b).
Proof.
  intros [pre [post ->]]. exists pre, (post ++ b).
  now rewrite !append_assoc.
Qed.

Lemma Substring_right (sub a b : string) :
  Substring sub b -> Substring sub (a ++ b).
Proof.
  intros [pre [post ->]]. exists (a ++ pre), post. now rewrite !append_assoc.
Qed.

(** A prefix without [c] of a text ends before the first [c]. *)
Lemma prefix_before (sub a b post : string) (c : ascii) :
  PyStr.free_of (Ascii.eqb c) sub = true ->
  sub ++ post = a ++ String c b -> exists post', a = sub ++ post'.
Proof.
  revert a. induction sub as [|d sub IH]; intros a Hfree E.
  - now exists a.
  - simpl in Hfree. apply andb_true_iff in Hfree as [Hd Hsub].
    destruct a as [|x a]; simpl in E; inversion E; subst.
    + rewrite Ascii.eqb_refl in Hd. discriminate.
    + destruct (IH a Hsub H1) as [post' ->]. now exists post'.
Qed.

(** An occurrence of a text without [c] lies on one side of a [c]. *)
Lemma Substring_across (sub a b : string) (c : ascii) :
  PyStr.free_of (Ascii.eqb c) sub = true ->
  Substring sub (a ++ String c b) <-> Substring sub a \/ Substring sub b.
Proof.
  intros Hfree. split.
  - intros [pre [post E]]. revert pre E.
    induction a as [|x a IH]; intros pre E.
    + destruct pre as [|e pre]; simpl in E.
      * destruct (prefix_before sub "" b post c Hfree (eq_sym E)) as [post' E'].
        left. exists "", post'. exact E'.
      * inversion E; subst. right. now exists pre, post.
    + destruct pre as [|e pre]; simpl in E.
      * destruct (prefix_before sub (String x a) b post c Hfree (eq_sym E))
          as [post' E'].
        left. exists "", post'. exact E'.
      * inversion E; subst. destruct (IH pre H1) as [H | H].
        -- left. now apply Substring_tail.
        -- now right.
  - intros [H | H]; [now apply Substring_left |].
    apply Substring_right. now apply Substring_tail.
Qed.

Lemma Substring_empty (sub : string) : Substring sub "" -> sub = "".
Proof.
  intros [pre [post E]]. destruct pre; [| discriminate].
  destruct sub; [reflexivity | discriminate].
Qed.

Lemma Substring_of_space (sub w : string) :
  PyStr.free_of PyStr.isspace sub = true -> AllSpace w ->
  Substring sub w -> sub = "".
Proof.
  intros Hfree Hw [pre [post ->]]. unfold AllSpace in Hw.
  rewrite !free_of_app in Hw. apply andb_true_iff in Hw as [_ Hw].
  apply andb_true_iff in Hw as [Hw _].
  destruct sub as [|c sub]; [reflexivity |]. simpl in *.
  destruct (PyStr.isspace c); discriminate.
Qed.

Lemma free_of_char (sub : string) (p : ascii -> bool) (c : ascii) :
  PyStr.free_of p sub = true -> p c = true ->
  PyStr.free_of (Ascii.eqb c) sub = true.
Proof.
  intros H Hc. revert H. apply free_of_weaken.
  intros x Hx. apply Ascii.eqb_eq in Hx. now subst.
Qed.

Lemma Substring_after_space (sub w t : string) :
  sub <> "" -> PyStr.free_of PyStr.isspace sub = true -> AllSpace w ->
  Substring sub (w ++ t) <-> Substring sub t.
Proof.
  intros Hne Hfree. induction w as [|c w IH]; intros Hw; [reflexivity |].
  unfold AllSpace in Hw. simpl in Hw.
  apply andb_true_iff in Hw as [Hc Hw]. rewrite negb_involutive in Hc.
  change (String c w ++ t) with ("" ++ String c (w ++ t)).
  rewrite (Substring_across sub "" (w ++ t) c (free_of_char _ _ _ Hfree Hc)).
  rewrite (IH Hw). split; [| now right].
  intros [H | H]; [| exact H]. apply Substring_empty in H. contradiction.
Qed.

Lemma Substring_before_space (sub w t : string) :
  sub <> "" -> PyStr.free_of PyStr.isspace sub = true -> AllSpace w ->
  Substring sub (t ++ w) <-> Substring sub t.
Proof.
  intros Hne Hfree Hw. destruct w as [|c w].
  - now rewrite append_empty_r.
  - pose proof Hw as Hw'. unfold AllSpace in Hw'. simpl in Hw'.
    apply andb_true_iff in Hw' as [Hc Hw']. rewrite negb_involutive in Hc.
    rewrite (Substring_across sub t w c (free_of_char _ _ _ Hfree Hc)).
    split; [| now left]. intros [H | H]; [exact H |].
    apply (Substring_of_space sub w Hfree Hw') in H. contradiction.
Qed.

Lemma Substring_strip (sub s : string) :
  sub <> "" -> PyStr.free_of PyStr.isspace sub = true ->
  Substring sub (PyStr.strip s) <-> Substring sub s.
Proof.
  intros Hne Hfree.
  destruct (strip_split s) as [lead [trail [E [Hl Ht]]]].
  rewrite E at 2.
  rewrite (Substring_after_space sub lead _ Hne Hfree Hl).
  now rewrite (Substring_before_space sub trail _ Hne Hfree Ht).
Qed.

Lemma Substring_join (sub : string) (parts : list string) :
  sub <> "" -> PyStr.free_of is_sep sub = true ->
  Substring sub (PyStr.join "_" parts) <->
  exists p, In p parts /\ Substring sub p.
Proof.
  intros Hne Hfree.
  assert (PyStr.free_of (Ascii.eqb "_") sub = true) as Hfree'.
  { revert Hfree. apply free_of_weaken. intros x Hx. unfold is_sep.
    now rewrite Ascii.eqb_sym. }
  induction parts as [|a [|b rest] IH].
  - simpl. split.
    + intros H. apply Substring_empty in H. contradiction.
    + intros [p [[] _]].
  - simpl. split.
    + intros H. exists a. split; [now left | exact H].
    + intros [p [[<- | []] H]]. exact H.
  - change (PyStr.join "_" (a :: b :: rest))
      with (a ++ String "_" (PyStr.join "_" (b :: rest))).
    rewrite (Substring_across sub a _ "_" Hfree'), IH. split.
    + intros [H | [p [Hin H]]].
      * exists a. split; [now left | exact H].
      * exists p. split; [now right | exact H].
    + intros [p [[<- | Hin] H]]; [now left |].
      right. exists p. split; assumption.
Qed.

(** After the flattening, a label is matched by ['Close' in col] exactly
    when it named a closing price before. *)
Lemma flattened_match (col : Label) :
  py_in "Close" (normalize_key col) = true <-> NamesClose col.
Proof.
  destruct col as [s | parts]; simpl.
  - apply contains_Substring.
  - rewrite contains_Substring, Substring_strip, Substring_join;
      [reflexivity | discriminate | reflexivity | discriminate | reflexivity].
Qed.

End MatchFacts.

Section AppFacts.

Variable rnd : Q -> Float.
Variable parse_datetime : string -> option Timestamp.
Variable parse_numeric : string -> Float.
Variable Params : Type.
Variable fit : list (Timestamp * Float) -> string + Params.
Variable predict_at : Params -> Timestamp -> Float * Float * Float.
Variable renders : DataFrame -> Label -> bool.

Local Abbreviation run :=
  (app rnd parse_datetime parse_numeric Params fit predict_at renders).

Local Abbreviation relabelled data :=
  {| index := index data;
     cols := map (fun c => (normalize_key (fst c), snd c)) (cols data) |}.

Lemma app_unfold (data : DataFrame) (forecast_period : nat) :
  run data forecast_period =
  if empty data then NoData
  else
    match filter (py_in "Close") (map normalize_key (columns data)) with
    | [] => NoCloseColumn
    | close_col :: _ =>
        if negb (distinct (map normalize_key (columns data))) then FetchError
        else if negb (renders (relabelled data) close_col) then FetchError
        else
          match getitem (relabelled data) close_col with
          | [series] =>
              Page close_col (SummaryStatistics rnd series)
                (Forecaster Params fit predict_at
                   (SeriesValidator parse_datetime parse_numeric
                      (prepare (index data) series)) forecast_period)
          | _ => FetchError
          end
    end.
Proof.
  unfold app. rewrite SchemaNormalizer_relabels.
  unfold ColumnResolver, close_cols. rewrite relabelled_columns.
  destruct (empty data); [reflexivity |].
  now destruct (filter (py_in "Close") (map normalize_key (columns data))).
Qed.



Lemma no_match_iff (labels : list Label) :
  filter (py_in "Close") (map normalize_key labels) = [] <->
  forall col, In col labels -> ~ NamesClose col.
Proof.
  rewrite filter_map_swap. split.
  - intros H col Hin Hc. apply flattened_match in Hc.
    apply map_eq_nil in H.
    assert (In col (filter (fun a => py_in "Close" (normalize_key a)) labels))
      as Hf by (apply filter_In; now split).
    rewrite H in Hf. exact Hf.
  - intros H. rewrite filter_none; [reflexivity |].
    intros col Hin. destruct (py_in "Close" (normalize_key col)) eqn:E;
      [| reflexivity].
    apply flattened_match in E. now apply H in E.
Qed.

(** X2 (lines 55-65): on the flattened frame the resolver returns the
    flattened label of the first downloaded column that names a closing
    price: a string label containing "Close", or a tuple label one of
    whose sub-labels contains "Close" (a match cannot straddle the
    underscores of the join, nor vanish with the stripped whitespace).
    It finds none exactly when no downloaded column names one. *)
Theorem ColumnResolver_after_SchemaNormalizer (data : DataFrame) :
  exists data',
    SchemaNormalizer data = Some data' /\
    match ColumnResolver data' with
    | Some close_col =>
        exists pre col post,
          columns data = pre ++ col :: post /\
          close_col = normalize_key col /\
          NamesClose col /\
          forall other, In other pre -> ~ NamesClose other
    | None => forall col, In col (columns data) -> ~ NamesClose col
    end.
Proof.
  eexists. split; [apply SchemaNormalizer_relabels |].
  unfold ColumnResolver, close_cols. rewrite relabelled_columns.
  rewrite filter_map_swap.
  pose proof (filter_first_match
                (fun a => py_in "Close" (normalize_key a)) (columns data)) as H.
  destruct (filter _ (columns data)) as [|col rest]; simpl.
  - intros col Hin Hc. apply flattened_match in Hc.
    rewrite (H col Hin) in Hc. discriminate.
  - destruct H as [pre [post [E [Hc Hpre]]]]. exists pre, col, post.
    repeat split; [exact E | now apply flattened_match |].
    intros other Hin Ho. apply flattened_match in Ho.
    rewrite (Hpre other Hin) in Ho. discriminate.
Qed.

(** X3 (lines 61-63): the run ends with "no Close column" exactly when
    the frame is not empty and none of its columns names a closing
    price. *)
Theorem app_NoCloseColumn_iff (data : DataFrame) (forecast_period : nat) :
  run data forecast_period = NoCloseColumn <->
  empty data = false /\ forall col, In col (columns data) -> ~ NamesClose col.
Proof.
  rewrite app_unfold, <- no_match_iff. destruct (empty data).
  - split; [discriminate | intros [H _]; discriminate].
  - destruct (filter _ _) as [|c rest].
    + split; [now split | reflexivity].
    + split; [| intros [_ H]; discriminate].
      destruct (negb (distinct _)); [discriminate |].
      destruct (negb (renders _ c)); [discriminate |].
      destruct (getitem _ c) as [|s [|s' other]]; discriminate.
Qed.


End AppFacts.

(** Colliding two-level labels end the run in the outer handler, whether
    they are the closing prices or not. *)
Example app_collision_scenario :
  app (fun q => Fin q) (fun _ => None) (fun _ => NaN) unit (fun _ => inr tt)
      (fun _ _ => (NaN, NaN, NaN)) (fun _ _ => true)
      {| index := [DStamp 0; DStamp day];
         cols := [(LTuple ["Close"; "A_B"], [Fin 1; Fin 2]);
                  (LTuple ["Close_A"; "B"], [Fin 3; Fin 4])] |} 30
  = FetchError /\
  app (fun q => Fin q) (fun _ => None) (fun _ => NaN) unit (fun _ => inr tt)
      (fun _ _ => (NaN, NaN, NaN)) (fun _ _ => true)
      {| index := [DStamp 0; DStamp day];
         cols := [(LTuple ["Open"; "A_B"], [Fin 1; Fin 2]);
                  (LTuple ["Open_A"; "B"], [Fin 3; Fin 4]);
                  (LTuple ["Close"; "A"], [Fin 5; Fin 6])] |} 30
  = FetchError.
Proof. split; reflexivity. Qed.

(* ================================================================== *)
(** * More on the statistics (lines 87-89) *)

Section InfinityFacts.

Variable rnd : Q -> Float.

Lemma skipna_In (s : list Float) (x : Float) :
  In x (Series.skipna s) <-> In x s /\ x <> NaN.
Proof.
  unfold Series.skipna. rewrite filter_In. split; intros [H1 H2]; split;
    try exact H1.
  - intros ->. discriminate.
  - destruct x; try reflexivity. now contradiction H2.
Qed.

Lemma sum_from_NaN (xs : list Float) : fold_left (fadd rnd) xs NaN = NaN.
Proof. induction xs as [|x xs IH]; simpl; [reflexivity | exact IH]. Qed.

(** Once a sum is +inf it stays +inf or turns into NaN. *)
Lemma sum_after_PInf (xs : list Float) (acc : Float) :
  acc = PInf \/ acc = NaN ->
  fold_left (fadd rnd) xs acc = PInf \/ fold_left (fadd rnd) xs acc = NaN.
Proof.
  revert acc. induction xs as [|x xs IH]; intros acc H; [exact H |].
  simpl. apply IH. destruct H as [-> | ->]; destruct x; simpl; auto.
Qed.

Lemma sum_after_NInf (xs : list Float) (acc : Float) :
  acc = NInf \/ acc = NaN ->
  fold_left (fadd rnd) xs acc = NInf \/ fold_left (fadd rnd) xs acc = NaN.
Proof.
  revert acc. induction xs as [|x xs IH]; intros acc H; [exact H |].
  simpl. apply IH. destruct H as [-> | ->]; destruct x; simpl; auto.
Qed.

Lemma add_PInf (acc : Float) :
  fadd rnd acc PInf = PInf \/ fadd rnd acc PInf = NaN.
Proof. destruct acc; simpl; auto. Qed.

Lemma add_NInf (acc : Float) :
  fadd rnd acc NInf = NInf \/ fadd rnd acc NInf = NaN.
Proof. destruct acc; simpl; auto. Qed.

(** A sum over a column that holds +inf is +inf or NaN. *)
Lemma sum_with_PInf (xs : list Float) (acc : Float) :
  In PInf xs ->
  fold_left (fadd rnd) xs acc = PInf \/ fold_left (fadd rnd) xs acc = NaN.
Proof.
  revert acc. induction xs as [|x xs IH]; intros acc Hp; [contradiction |].
  simpl. destruct Hp as [-> | Hp]; [| now apply IH].
  apply sum_after_PInf, add_PInf.
Qed.

Lemma sum_PInf_then_NInf (xs : list Float) (acc : Float) :
  acc = PInf \/ acc = NaN -> In NInf xs ->
  fold_left (fadd rnd) xs acc = NaN.
Proof.
  revert acc. induction xs as [|x xs IH]; intros acc H Hm; [contradiction |].
  simpl. destruct Hm as [-> | Hm].
  - destruct H as [-> | ->]; simpl; apply sum_from_NaN.
  - apply IH; [| exact Hm]. destruct H as [-> | ->]; destruct x; simpl; auto.
Qed.

Lemma sum_NInf_then_PInf (xs : list Float) (acc : Float) :
  acc = NInf \/ acc = NaN -> In PInf xs ->
  fold_left (fadd rnd) xs acc = NaN.
Proof.
  revert acc. induction xs as [|x xs IH]; intros acc H Hp; [contradiction |].
  simpl. destruct Hp as [-> | Hp].
  - destruct H as [-> | ->]; simpl; apply sum_from_NaN.
  - apply IH; [| exact Hp]. destruct H as [-> | ->]; destruct x; simpl; auto.
Qed.

(** A sum over a column that holds both infinities is NaN. *)
Lemma sum_with_both (xs : list Float) (acc : Float) :
  In PInf xs -> In NInf xs -> fold_left (fadd rnd) xs acc = NaN.
Proof.
  revert acc. induction xs as [|x xs IH]; intros acc Hp Hm; [contradiction |].
  simpl. destruct Hp as [-> | Hp].
  - destruct Hm as [Hm | Hm]; [discriminate |].
    now apply sum_PInf_then_NInf; [apply add_PInf |].
  - destruct Hm as [-> | Hm].
    + now apply sum_NInf_then_PInf; [apply add_NInf |].
    + now apply IH.
Qed.

Lemma column_sum_with_PInf (xs : list Float) :
  In PInf xs -> Series.sum rnd xs = PInf \/ Series.sum rnd xs = NaN.
Proof.
  destruct xs as [|x0 xs]; [contradiction |]. intros [-> | Hp]; simpl.
  - apply sum_after_PInf. now left.
  - now apply sum_with_PInf.
Qed.

Lemma column_sum_with_both (xs : list Float) :
  In PInf xs -> In NInf xs -> Series.sum rnd xs = NaN.
Proof.
  destruct xs as [|x0 xs]; [contradiction |]. intros [-> | Hp] [Hm | Hm]; simpl.
  - discriminate.
  - apply sum_PInf_then_NInf; [now left | exact Hm].
  - subst. apply sum_NInf_then_PInf; [now left | exact Hp].
  - now apply sum_with_both.
Qed.

Lemma max_from_PInf (xs : list Float) :
  ~ In NaN xs -> fold_left fmax xs PInf = PInf.
Proof.
  induction xs as [|x xs IH]; intros Hn; [reflexivity |].
  assert (~ In NaN xs) as Hn' by (intros H; apply Hn; now right).
  destruct x; simpl; now apply IH.
Qed.

Lemma max_with_PInf (xs : list Float) (x0 : Float) :
  ~ In NaN (x0 :: xs) -> In PInf (x0 :: xs) -> fold_left fmax xs x0 = PInf.
Proof.
  revert x0. induction xs as [|x xs IH]; intros x0 Hn Hp.
  - destruct Hp as [-> | []]. reflexivity.
  - simpl. destruct Hp as [-> | Hp].
    + assert (fmax PInf x = PInf) as -> by (destruct x; reflexivity).
      apply max_from_PInf. intros H. apply Hn. now right; right.
    + apply IH.
      * intros [H | H].
        -- destruct x0, x; try discriminate H;
             try (apply Hn; now left); try (apply Hn; right; now left).
           unfold fmax in H. simpl in H. destruct (Qle_bool q q0); discriminate.
        -- apply Hn. now right; right.
      * destruct Hp as [-> | Hp]; [| now right].
        left. destruct x0; try reflexivity. exfalso. apply Hn. now left.
Qed.

Lemma min_from_NInf (xs : list Float) :
  ~ In NaN xs -> fold_left fmin xs NInf = NInf.
Proof.
  induction xs as [|x xs IH]; intros Hn; [reflexivity |].
  assert (~ In NaN xs) as Hn' by (intros H; apply Hn; now right).
  destruct x; simpl; now apply IH.
Qed.

Lemma min_with_NInf (xs : list Float) (x0 : Float) :
  ~ In NaN (x0 :: xs) -> In NInf (x0 :: xs) -> fold_left fmin xs x0 = NInf.
Proof.
  revert x0. induction xs as [|x xs IH]; intros x0 Hn Hp.
  - destruct Hp as [-> | []]. reflexivity.
  - simpl. destruct Hp as [-> | Hp].
    + assert (fmin NInf x = NInf) as -> by (destruct x; reflexivity).
      apply min_from_NInf. intros H. apply Hn. now right; right.
    + apply IH.
      * intros [H | H].
        -- destruct x0, x; try discriminate H;
             try (apply Hn; now left); try (apply Hn; right; now left).
           unfold fmin in H. simpl in H. destruct (Qle_bool q0 q); discriminate.
        -- apply Hn. now right; right.
      * destruct Hp as [-> | Hp]; [| now right].
        left. destruct x0; try reflexivity. exfalso. apply Hn. now left.
Qed.

End InfinityFacts.

(** X6 (lines 87-89): an infinite close is not skipped. A column that
    holds +inf has an infinite highest price, and its average is no
    finite number: it is +inf or NaN (NaN as soon as a sum meets -inf,
    be it an entry or an overflow). When the column holds -inf as well,
    the average is NaN and the lowest price is -inf. *)
Theorem SummaryStatistics_infinite (rnd : Q -> Float) (s : list Float) :
  In PInf s ->
  max_price (SummaryStatistics rnd s) = PInf /\
  (avg_price (SummaryStatistics rnd s) = PInf \/
   avg_price (SummaryStatistics rnd s) = NaN) /\
  (In NInf s -> avg_price (SummaryStatistics rnd s) = NaN /\
                min_price (SummaryStatistics rnd s) = NInf).
Proof.
  intros Hp.
  assert (~ In NaN (Series.skipna s)) as Hn
    by (intros H; apply skipna_In in H as [_ H]; now apply H).
  assert (In PInf (Series.skipna s)) as Hp'
    by (apply skipna_In; split; [exact Hp | discriminate]).
  unfold SummaryStatistics, Series.mean, Series.max, Series.min.
  cbn [avg_price max_price min_price].
  destruct (Series.skipna s) as [|x0 xs] eqn:E; [contradiction |].
  split; [now apply max_with_PInf |]. split.
  - destruct (column_sum_with_PInf rnd _ Hp') as [-> | ->]; auto.
  - intros Hm.
    assert (In NInf (x0 :: xs)) as Hm'
      by (rewrite <- E; apply skipna_In; split; [exact Hm | discriminate]).
    split; [| now apply min_with_NInf].
    now rewrite (column_sum_with_both rnd _ Hp' Hm').
Qed.

(** Closes 100, +inf and 102; and with -inf added. *)
Lemma SummaryStatistics_infinite_witness :
  max_price (SummaryStatistics (fun q => Fin q) [Fin 100; PInf; Fin 102])
    = PInf /\
  avg_price (SummaryStatistics (fun q => Fin q) [Fin 100; PInf; NInf]) = NaN.
Proof.
  split.
  - apply (SummaryStatistics_infinite (fun q => Fin q) [Fin 100; PInf; Fin 102]).
    right. now left.
  - apply (SummaryStatistics_infinite (fun q => Fin q) [Fin 100; PInf; NInf]).
    + right. now left.
    + right. right. now left.
Defined.

(* ================================================================== *)
(** * More on the forecasting block (lines 101-144) *)

Section SortedFacts.

Local Open Scope Z_scope.

Lemma StronglySorted_weaken {A} (R S : A -> A -> Prop) (l : list A) :
  (forall x y, R x y -> S x y) -> StronglySorted R l -> StronglySorted S l.
Proof.
  intros HRS. induction 1 as [|a l _ IH Ha]; constructor; [exact IH |].
  revert Ha. apply Forall_impl. apply HRS.
Qed.

Lemma StronglySorted_append {A} (R : A -> A -> Prop) (l1 l2 : list A) :
  StronglySorted R l1 -> StronglySorted R l2 ->
  (forall x y, In x l1 -> In y l2 -> R x y) ->
  StronglySorted R (l1 ++ l2).
Proof.
  intros H1 H2 H. induction H1 as [|a l _ IH Ha]; [exact H2 |].
  simpl. constructor.
  - apply IH. intros x y Hx. apply H. now right.
  - apply Forall_app. split; [exact Ha |].
    apply Forall_forall. intros y Hy. apply H; [now left | exact Hy].
Qed.

Lemma sort_sorted (l : list Timestamp) :
  StronglySorted Z.le (TimestampSort.sort l).
Proof.
  apply StronglySorted_weaken
    with (R := fun x y => is_true (TimestampOrder.leb x y)).
  - intros x y H. now apply Z.leb_le.
  - apply TimestampSort.StronglySorted_sort.
    intros x y z Hxy Hyz. unfold is_true, TimestampOrder.leb in *.
    apply Z.leb_le in Hxy, Hyz. apply Z.leb_le. lia.
Qed.

(** Two ascending arrangements of the same dates are the same list. *)
Lemma sorted_unique (l1 l2 : list Timestamp) :
  StronglySorted Z.le l1 -> StronglySorted Z.le l2 ->
  Permutation l1 l2 -> l1 = l2.
Proof.
  intros H1. revert l2. induction H1 as [|a l1 _ IH Ha]; intros l2 H2 P.
  - apply Permutation_nil in P. now subst.
  - destruct H2 as [|b l2 H2 Hb].
    + apply Permutation_sym, Permutation_nil in P. discriminate.
    + assert (a = b) as ->.
      { rewrite Forall_forall in Ha, Hb.
        assert (In b (a :: l1)) as Hb'
          by (apply (Permutation_in _ (Permutation_sym P)); now left).
        assert (In a (b :: l2)) as Ha'
          by (apply (Permutation_in _ P); now left).
        destruct Hb' as [E | Hb']; [exact E |].
        destruct Ha' as [E | Ha']; [now symmetry |].
        apply Ha in Hb'. apply Hb in Ha'. lia. }
      f_equal. apply IH; [exact H2 |]. now apply Permutation_cons_inv in P.
Qed.

Lemma sort_of_sorted (l : list Timestamp) :
  StronglySorted Z.le l -> TimestampSort.sort l = l.
Proof.
  intros H. apply sorted_unique; [apply sort_sorted | exact H |].
  apply Permutation_sym, TimestampSort.Permuted_sort.
Qed.

Lemma sorted_strictly (l : list Timestamp) :
  StronglySorted Z.le l -> NoDup l -> StronglySorted Z.lt l.
Proof.
  induction 1 as [|a l _ IH Ha]; intros Hnd; constructor.
  - apply IH. now inversion Hnd.
  - inversion Hnd as [|x l' Hnotin _]; subst.
    rewrite Forall_forall in *. intros y Hy.
    assert (a <> y) by (intros ->; contradiction).
    specialize (Ha y Hy). lia.
Qed.

Lemma history_dates_increasing (ts : list Timestamp) :
  StronglySorted Z.lt (history_dates ts).
Proof.
  unfold history_dates. apply sorted_strictly; [apply sort_sorted |].
  apply (Permutation_NoDup (TimestampSort.Permuted_sort _)).
  apply NoDup_nodup.
Qed.

Lemma days_from_increasing (last : Timestamp) (start n : nat) :
  StronglySorted Z.lt
    (map (fun k => last + Z.of_nat k * day) (seq start n)).
Proof.
  revert start. induction n as [|n IH]; intros start; simpl; constructor.
  - apply IH.
  - apply Forall_forall. intros y Hy. apply in_map_iff in Hy as [k [<- Hk]].
    apply in_seq in Hk. pose proof day_positive. nia.
Qed.

(** The dates of the future frame are already in order: the history,
    then the days after its last date. *)
Lemma future_frame_increasing (dates : list Timestamp) (last : Timestamp)
      (periods : nat) :
  max_date dates = Some last ->
  StronglySorted Z.lt (history_dates dates ++ days_after last periods).
Proof.
  intros Hlast. apply max_date_iff in Hlast as [_ Hle].
  apply StronglySorted_append.
  - apply history_dates_increasing.
  - apply days_from_increasing.
  - intros x y Hx Hy. apply (proj1 (history_dates_In _ _)) in Hx.
    apply Hle in Hx. apply days_after_later in Hy. lia.
Qed.

Lemma history_dates_max (dates : list Timestamp) (last : Timestamp) :
  max_date dates = Some last -> max_date (history_dates dates) = Some last.
Proof.
  intros H. apply max_date_iff in H as [Hin Hle]. apply max_date_iff. split.
  - now apply history_dates_In.
  - intros x Hx. apply Hle. now apply history_dates_In.
Qed.


End SortedFacts.

Section ForecasterFacts.

Variable Params : Type.
Variable fit : list (Timestamp * Float) -> string + Params.
Variable predict_at : Params -> Timestamp -> Float * Float * Float.

Lemma forecast_frame (dates : list Timestamp) (last : Timestamp)
      (periods : nat) (model : Params) :
  max_date dates = Some last ->
  exists future,
    make_future_dataframe (history_dates dates) periods = Some future /\
    map ds (predict Params predict_at model future)
    = history_dates dates ++ days_after last periods.
Proof.
  intros Hlast.
  exists (history_dates dates ++ days_after last periods). split.
  - apply make_future_dataframe_dates. now apply history_dates_max.
  - rewrite predict_dates. apply sort_of_sorted.
    apply StronglySorted_weaken with (R := Z.lt);
      [intros x y; apply Z.lt_le_incl |].
    now apply future_frame_increasing.
Qed.


(** X8 (lines 118-119): the dates of the forecast are the distinct dates
    of the history in ascending order followed by one date per day of
    the horizon; they are strictly increasing, so no date is forecast
    twice even when the history repeats one, and there are as many rows
    as distinct historical dates plus the horizon. *)
Theorem forecast_dates (dates : list Timestamp) (last : Timestamp)
        (forecast_period : nat) (model : Params) :
  max_date dates = Some last ->
  exists future,
    make_future_dataframe (history_dates dates) forecast_period
      = Some future /\
    map ds (predict Params predict_at model future)
      = history_dates dates ++ days_after last forecast_period /\
    StronglySorted Z.lt (map ds (predict Params predict_at model future)) /\
    List.length (predict Params predict_at model future)
      = List.length (nodup Z.eq_dec dates) + forecast_period.
Proof.
  intros Hlast.
  destruct (forecast_frame dates last forecast_period model Hlast)
    as [future [Hf Hd]].
  exists future. split; [exact Hf |]. split; [exact Hd |]. split.
  - rewrite Hd. now apply future_frame_increasing.
  - rewrite <- (length_map ds), Hd, length_app. f_equal.
    + unfold history_dates. symmetry. apply Permutation_length.
      apply TimestampSort.Permuted_sort.
    + unfold days_after. now rewrite length_map, length_seq.
Qed.

(** X9 (line 141): with a horizon of at least five days (the slider
    starts at thirty) the preview of the forecast shows no historical
    row: its five rows are the last five days of the horizon. *)
Theorem forecast_preview (dates : list Timestamp) (last : Timestamp)
        (forecast_period : nat) (model : Params) :
  max_date dates = Some last -> 5 <= forecast_period ->
  exists future,
    make_future_dataframe (history_dates dates) forecast_period
      = Some future /\
    map ds (tail (predict Params predict_at model future))
      = map (fun k => (last + Z.of_nat k * day)%Z)
            (seq (forecast_period - 4) 5).
Proof.
  intros Hlast Hh.
  destruct (forecast_frame dates last forecast_period model Hlast)
    as [future [Hf Hd]].
  exists future. split; [exact Hf |]. unfold tail.
  rewrite <- skipn_map, <- (length_map ds), Hd, length_app.
  assert (List.length (days_after last forecast_period) = forecast_period)
    as Hn by (unfold days_after; now rewrite length_map, length_seq).
  rewrite Hn, skipn_app.
  rewrite skipn_all2 by lia. cbn [app].
  replace (List.length (history_dates dates) + forecast_period - 5
           - List.length (history_dates dates))
    with (forecast_period - 5) by lia.
  unfold days_after. rewrite skipn_map, skipn_seq.
  replace (1 + (forecast_period - 5)) with (forecast_period - 4) by lia.
  now replace (forecast_period - (forecast_period - 5)) with 5 by lia.
Qed.

End ForecasterFacts.

(** Closes on days 1, 0 and 1 again, a horizon of three days. *)
Lemma forecast_dates_witness :
  exists future,
    make_future_dataframe (history_dates [day; 0%Z; day]) 3 = Some future /\
    map ds (predict unit (fun _ _ => (NaN, NaN, NaN)) tt future)
      = [0; day; 2 * day; 3 * day; 4 * day]%Z.
Proof.
  destruct (forecast_dates unit (fun _ _ => (NaN, NaN, NaN))
              [day; 0%Z; day] day 3 tt eq_refl)
    as [future [H1 [H2 _]]].
  exists future. split; [exact H1 | exact H2].
Defined.

(** Two closes and a horizon of thirty days: the preview shows days 27
    to 31. *)
Lemma forecast_preview_witness :
  exists future,
    make_future_dataframe (history_dates [0%Z; day]) 30 = Some future /\
    map ds (tail (predict unit (fun _ _ => (NaN, NaN, NaN)) tt future))
      = [27 * day; 28 * day; 29 * day; 30 * day; 31 * day]%Z.
Proof.
  destruct (forecast_preview unit (fun _ _ => (NaN, NaN, NaN))
              [0%Z; day] day 30 tt eq_refl)
    as [future [H1 H2]].
  - lia.
  - exists future. split; [exact H1 | exact H2].
Defined.

(* ================================================================== *)
(** * The figures shown (lines 91-94) *)

Section FormatFacts.

Local Abbreviation not_comma := (fun c : ascii => negb (Ascii.eqb c ",")).

(** A character of a number before grouping: no comma, point or sign. *)
Local Abbreviation plain :=
  (fun c : ascii =>
     negb (Ascii.eqb c ",") && negb (Ascii.eqb c ".") && negb (Ascii.eqb c "-")).

Lemma group3_step (a b c d : ascii) (rest : list ascii) :
  Format.group3 (a :: b :: c :: d :: rest)
  = a :: b :: c :: ","%char :: Format.group3 (d :: rest).
Proof. reflexivity. Qed.

Lemma group3_short (l : list ascii) :
  List.length l <= 3 -> Format.group3 l = l.
Proof.
  destruct l as [|a [|b [|c [|d rest]]]]; try reflexivity.
  simpl. lia.
Qed.

(** Induction over the digits three at a time. *)
Lemma by_threes (P : list ascii -> Prop) :
  (forall l, List.length l <= 3 -> P l) ->
  (forall a b c d rest, P (d :: rest) -> P (a :: b :: c :: d :: rest)) ->
  forall l, P l.
Proof.
  intros Hshort Hstep l.
  remember (List.length l) as n eqn:Hn. revert l Hn.
  induction n as [n IH] using lt_wf_ind. intros l Hn.
  destruct l as [|a [|b [|c [|d rest]]]];
    try (apply Hshort; simpl; lia).
  apply Hstep. apply (IH (List.length (d :: rest))); [simpl in *; lia | reflexivity].
Qed.

Lemma group3_ungroup (l : list ascii) :
  forallb not_comma l = true -> filter not_comma (Format.group3 l) = l.
Proof.
  induction l as [l Hl | a b c d rest IH] using by_threes; intros H.
  - rewrite (group3_short _ Hl). now apply forallb_filter_id.
  - rewrite group3_step. cbn [forallb] in H.
    apply andb_true_iff in H as [Ha H]. apply andb_true_iff in H as [Hb H].
    apply andb_true_iff in H as [Hc H].
    cbn [filter]. rewrite Ha, Hb, Hc, Ascii.eqb_refl. cbn [negb].
    do 3 f_equal. now apply IH.
Qed.

Lemma group3_chars (p : ascii -> bool) (l : list ascii) :
  p ","%char = true -> forallb p l = true ->
  forallb p (Format.group3 l) = true.
Proof.
  intros Hp. induction l as [l Hl | a b c d rest IH] using by_threes; intros H.
  - now rewrite (group3_short _ Hl).
  - rewrite group3_step. cbn [forallb] in H |- *.
    apply andb_true_iff in H as [Ha H]. apply andb_true_iff in H as [Hb H].
    apply andb_true_iff in H as [Hc H].
    rewrite Ha, Hb, Hc, Hp. cbn [andb]. now apply IH.
Qed.

Lemma forallb_rev {A} (p : A -> bool) (l : list A) :
  forallb p (rev l) = forallb p l.
Proof.
  destruct (forallb p l) eqn:E.
  - rewrite forallb_forall in *. intros x Hx. apply E. now apply in_rev.
  - destruct (forallb p (rev l)) eqn:E'; [| reflexivity].
    rewrite <- E. symmetry. rewrite forallb_forall in *.
    intros x Hx. apply E'. now apply in_rev in Hx.
Qed.

Lemma digits_plain (n : N) :
  forallb plain (list_ascii_of_string (Format.digits n)) = true.
Proof.
  unfold Format.digits. induction (N.to_uint n); simpl; auto.
Qed.

Lemma remove_commas_group (s : string) :
  forallb not_comma (list_ascii_of_string s) = true ->
  remove_commas (Format.group s) = s.
Proof.
  intros H. unfold remove_commas, Format.group.
  rewrite list_ascii_of_string_of_list_ascii, filter_rev, group3_ungroup.
  - now rewrite rev_involutive, string_of_list_ascii_of_string.
  - now rewrite forallb_rev.
Qed.

Lemma group_chars (p : ascii -> bool) (s : string) :
  p ","%char = true -> forallb p (list_ascii_of_string s) = true ->
  forallb p (list_ascii_of_string (Format.group s)) = true.
Proof.
  intros Hp H. unfold Format.group.
  rewrite list_ascii_of_string_of_list_ascii, forallb_rev.
  apply group3_chars; [exact Hp |]. now rewrite forallb_rev.
Qed.

Lemma split_point_at (whole decimals : string) :
  forallb (fun c => negb (Ascii.eqb c ".")) (list_ascii_of_string whole) = true ->
  split_point (whole ++ String "." decimals) = Some (whole, decimals).
Proof.
  induction whole as [|c w IH]; intros H; simpl in *; [reflexivity |].
  apply andb_true_iff in H as [Hc H]. apply negb_true_iff in Hc.
  now rewrite Hc, (IH H).
Qed.

Lemma read_digits_digits (n : N) : read_digits (Format.digits n) = Some n.
Proof.
  unfold read_digits, Format.digits. rewrite NilEmpty.usu. simpl.
  now rewrite DecimalN.Unsigned.of_to.
Qed.

Lemma read_digits_two (n : N) : read_digits (Format.two_digits n) = Some n.
Proof.
  unfold Format.two_digits. destruct (n <? 10)%N.
  - unfold read_digits, Format.digits. simpl. rewrite NilEmpty.usu. simpl.
    f_equal. apply DecimalN.Unsigned.of_to.
  - apply read_digits_digits.
Qed.

Lemma round_half_even_cases (r : Q) :
  let f := (Qnum r / Zpos (Qden r))%Z in
  let m := (Qnum r mod Zpos (Qden r))%Z in
  (Format.round_half_even r = f /\ 2 * m <= Zpos (Qden r))%Z \/
  (Format.round_half_even r = f + 1 /\ Zpos (Qden r) <= 2 * m)%Z.
Proof.
  unfold Format.round_half_even. cbv zeta.
  destruct (Z.compare_spec (2 * (Qnum r mod Zpos (Qden r))) (Zpos (Qden r)))
    as [E | E | E].
  - destruct (Z.even (Qnum r / Zpos (Qden r))); [left | right]; split;
      try reflexivity; lia.
  - left. split; [reflexivity | lia].
  - right. split; [reflexivity | lia].
Qed.

(** Rounding moves a value by at most one half. *)
Lemma round_half_even_close (r : Q) :
  (- (1 # 2) <= r - inject_Z (Format.round_half_even r))%Q /\
  (r - inject_Z (Format.round_half_even r) <= 1 # 2)%Q.
Proof.
  pose proof (round_half_even_cases r) as H. cbv zeta in H.
  destruct r as [n d]. cbn [Qnum Qden] in H.
  pose proof (Z.div_mod n (Zpos d)) as Hdiv.
  pose proof (Z.mod_pos_bound n (Zpos d)) as Hmod.
  unfold Qle, Qminus, Qplus, Qopp, inject_Z. cbn [Qnum Qden].
  destruct H as [[-> H] | [-> H]]; split; nia.
Qed.

Lemma round_half_even_nonneg (r : Q) :
  (0 <= Qnum r)%Z -> (0 <= Format.round_half_even r)%Z.
Proof.
  intros H. pose proof (round_half_even_cases r) as Hc. cbv zeta in Hc.
  pose proof (Z.div_pos (Qnum r) (Zpos (Qden r)) H) as Hf.
  destruct Hc as [[-> _] | [-> _]]; lia.
Qed.

(** At a tie the even neighbour is taken. *)
Lemma round_half_even_tie (r : Q) :
  (Qabs (r - inject_Z (Format.round_half_even r)) == 1 # 2)%Q ->
  Z.even (Format.round_half_even r) = true.
Proof.
  destruct r as [n d]. unfold Format.round_half_even. cbv zeta.
  cbn [Qnum Qden].
  pose proof (Z.div_mod n (Zpos d)) as Hdiv.
  pose proof (Z.mod_pos_bound n (Zpos d)) as Hmod.
  destruct (Z.compare_spec (2 * (n mod Zpos d)) (Zpos d)) as [E | E | E].
  - destruct (Z.even (n / Zpos d)) eqn:Hev; intros _; [exact Hev |].
    rewrite Z.add_1_r, Z.even_succ, <- Z.negb_even, Hev. reflexivity.
  - unfold Qeq, Qabs, Qminus, Qplus, Qopp, inject_Z. cbn [Qnum Qden].
    rewrite Pos2Z.inj_mul. intros H. exfalso. nia.
  - unfold Qeq, Qabs, Qminus, Qplus, Qopp, inject_Z. cbn [Qnum Qden].
    rewrite Pos2Z.inj_mul. intros H. exfalso. nia.
Qed.

Lemma hundredths (k : Z) : (k # 100 == inject_Z k * (1 # 100))%Q.
Proof. unfold Qeq, Qmult, inject_Z. simpl. lia. Qed.

Lemma no_sign_in_front (whole decimals : string) (A : Type)
      (x : string -> A) (y : A) :
  forallb (fun c => negb (Ascii.eqb c "-")) (list_ascii_of_string whole) = true ->
  match (whole ++ String "." decimals)%string with
  | String c r => if Ascii.eqb c "-" then x r else y
  | EmptyString => y
  end = y.
Proof.
  destruct whole as [|c w]; intros H; [reflexivity |].
  simpl in *. apply andb_true_iff in H as [Hc _].
  apply negb_true_iff in Hc. now rewrite Hc.
Qed.

(** Reading back the sign-less part of a figure of [c] hundredths. *)
Lemma read_body (c : N) :
  let whole := Format.group (Format.digits (c / 100)) in
  let decimals := Format.two_digits (c mod 100) in
  split_point (whole ++ String "." decimals) = Some (whole, decimals) /\
  read_digits (remove_commas whole) = Some (c / 100)%N /\
  read_digits decimals = Some (c mod 100)%N /\
  forallb (fun c => negb (Ascii.eqb c "-")) (list_ascii_of_string whole) = true.
Proof.
  cbv zeta. pose proof (digits_plain (c / 100)) as Hp.
  split; [| split; [| split]].
  - apply split_point_at. apply group_chars; [reflexivity |].
    revert Hp. apply forallb_weaken. intros x Hx.
    apply andb_true_iff in Hx as [Hx _]. now apply andb_true_iff in Hx as [_ Hx].
  - rewrite remove_commas_group; [apply read_digits_digits |].
    revert Hp. apply forallb_weaken. intros x Hx.
    apply andb_true_iff in Hx as [Hx _]. now apply andb_true_iff in Hx as [Hx _].
  - apply read_digits_two.
  - apply group_chars; [reflexivity |].
    revert Hp. apply forallb_weaken. intros x Hx.
    now apply andb_true_iff in Hx as [_ Hx].
Qed.

Lemma read_figure_comma_2f (q : Q) :
  read_figure (Format.comma_2f (Fin q))
  = Some (if Z.ltb (Qnum q) 0
          then (- (Format.round_half_even (Qabs q * 100) # 100))%Q
          else (Format.round_half_even (Qabs q * 100) # 100)%Q).
Proof.
  assert (0 <= Format.round_half_even (Qabs q * 100))%Z as Hk.
  { apply round_half_even_nonneg. destruct q as [n d]. simpl. lia. }
  unfold Format.comma_2f.
  set (c := Z.to_N (Format.round_half_even (Qabs q * 100))).
  destruct (read_body c) as [Hsplit [Hwhole [Hdec Hsign]]].
  assert (Z.of_N (c / 100 * 100 + c mod 100)
          = Format.round_half_even (Qabs q * 100)) as Hc.
  { rewrite N.mul_comm, <- N.div_mod by discriminate.
    unfold c. now rewrite Z2N.id. }
  unfold read_figure. destruct (Z.ltb (Qnum q) 0).
  - cbn [String.append]. rewrite Ascii.eqb_refl.
    now rewrite Hsplit, Hwhole, Hdec, Hc.
  - cbn [String.append].
    rewrite (no_sign_in_front _ _ _ (fun r => (true, r)) _ Hsign).
    now rewrite Hsplit, Hwhole, Hdec, Hc.
Qed.

End FormatFacts.

(** X10 (lines 91-94): a finite statistic is shown as a figure that reads
    back, commas removed, as a whole number [k] of hundredths with the
    sign of the statistic, where [k] is the integer nearest to a hundred
    times the absolute value of the statistic, the even one of the two
    when they are equally near; so the figure is at most half a
    hundredth away from the statistic. *)
Theorem comma_2f_reads_back (q : Q) :
  exists (v : Q) (k : Z),
    read_figure (Format.comma_2f (Fin q)) = Some v /\
    v = (if Z.ltb (Qnum q) 0 then - (k # 100) else k # 100)%Q /\
    (0 <= k)%Z /\
    (Qabs (Qabs q * 100 - inject_Z k) <= 1 # 2)%Q /\
    ((Qabs (Qabs q * 100 - inject_Z k) == 1 # 2)%Q -> Z.even k = true) /\
    (Qabs (q - v) <= 1 # 200)%Q.
Proof.
  exists (if Z.ltb (Qnum q) 0
          then (- (Format.round_half_even (Qabs q * 100) # 100))%Q
          else (Format.round_half_even (Qabs q * 100) # 100)%Q),
    (Format.round_half_even (Qabs q * 100)).
  split; [apply read_figure_comma_2f |]. split; [reflexivity |].
  destruct (round_half_even_close (Qabs q * 100)) as [Hlo Hhi].
  split; [| split; [| split]].
  - apply round_half_even_nonneg. destruct q as [n d]. simpl. lia.
  - apply Qabs_Qle_condition. now split.
  - apply round_half_even_tie.
  - set (k := Format.round_half_even (Qabs q * 100)) in *.
    apply Qabs_Qle_condition.
    destruct (Z.ltb_spec (Qnum q) 0) as [Hneg | Hpos].
    + assert (Qabs q == - q)%Q as E
        by (apply Qabs_neg; destruct q as [n d]; unfold Qle; simpl in *; lia).
      rewrite E in Hlo, Hhi. rewrite (hundredths k). split; lra.
    + assert (Qabs q == q)%Q as E
        by (apply Qabs_pos; destruct q as [n d]; unfold Qle; simpl in *; lia).
      rewrite E in Hlo, Hhi. rewrite (hundredths k). split; lra.
Qed.

Section ShapeFacts.

Lemma group3_length (l : list ascii) :
  List.length (Format.group3 l) = List.length l + (List.length l - 1) / 3.
Proof.
  induction l as [l Hl | a b c d rest IH] using by_threes.
  - rewrite (group3_short _ Hl).
    rewrite (Nat.div_small (List.length l - 1) 3) by lia. lia.
  - rewrite group3_step. cbn [List.length] in IH |- *. rewrite IH.
    replace (S (S (S (S (List.length rest)))) - 1)
      with (S (List.length rest) - 1 + 1 * 3) by lia.
    rewrite Nat.div_add by discriminate. lia.
Qed.

Lemma group3_commas (l : list ascii) (i : nat) :
  forallb (fun c => negb (Ascii.eqb c ",")) l = true ->
  i < List.length (Format.group3 l) ->
  (nth i (Format.group3 l) "0"%char = ","%char <-> i mod 4 = 3).
Proof.
  revert i. induction l as [l Hl | a b c d rest IH] using by_threes;
    intros i H Hi.
  - rewrite (group3_short _ Hl) in *. split.
    + intros E. rewrite forallb_forall in H.
      specialize (H (nth i l "0"%char) (nth_In _ _ Hi)).
      rewrite E in H. discriminate.
    + intros E. rewrite Nat.mod_small in E by lia. lia.
  - rewrite group3_step in *. cbn [forallb] in H.
    apply andb_true_iff in H as [Ha H]. apply andb_true_iff in H as [Hb H].
    apply andb_true_iff in H as [Hc H].
    apply negb_true_iff, Ascii.eqb_neq in Ha, Hb, Hc.
    destruct i as [|[|[|[|j]]]]; cbn [nth].
    + split; [intros E; contradiction | discriminate].
    + split; [intros E; contradiction | discriminate].
    + split; [intros E; contradiction | discriminate].
    + split; reflexivity.
    + replace (S (S (S (S j))) mod 4) with (j mod 4).
      * apply IH; [exact H | cbn [List.length] in Hi; lia].
      * replace (S (S (S (S j)))) with (j + 1 * 4) by lia.
        now rewrite Nat.Div0.mod_add.
Qed.

Lemma list_of_string_length (s : string) :
  List.length (list_ascii_of_string s) = String.length s.
Proof. induction s as [|c s IH]; simpl; [reflexivity | now rewrite IH]. Qed.

Lemma two_digits_length (m : N) :
  (m < 100)%N -> String.length (Format.two_digits m) = 2.
Proof.
  intros Hm.
  assert (forallb (fun k => Nat.eqb (String.length
                                       (Format.two_digits (N.of_nat k))) 2)
                  (seq 0 100) = true) as Hall by (vm_compute; reflexivity).
  rewrite forallb_forall in Hall.
  specialize (Hall (N.to_nat m)). rewrite N2Nat.id in Hall.
  apply Nat.eqb_eq. apply Hall. apply in_seq. lia.
Qed.

End ShapeFacts.

(** X11 (lines 91-94): the shape of a shown figure. After an optional
    minus sign come the integer part, a point and exactly two decimals;
    in the integer part, counting from its last character, the commas
    stand exactly at every fourth place, so that [d] digits take
    [d + (d - 1) / 3] characters. *)
Theorem comma_2f_shape (q : Q) :
  exists sign digits whole decimals : string,
    Format.comma_2f (Fin q) = (sign ++ whole ++ "." ++ decimals)%string /\
    (sign = ""%string \/ sign = "-"%string) /\
    whole = Format.group digits /\ remove_commas whole = digits /\
    String.length decimals = 2 /\
    (let places := rev (list_ascii_of_string whole) in
     List.length places
       = String.length digits + (String.length digits - 1) / 3 /\
     forall i, i < List.length places ->
               (nth i places "0"%char = ","%char <-> i mod 4 = 3)).
Proof.
  set (c := Z.to_N (Format.round_half_even (Qabs q * 100))).
  exists (if Z.ltb (Qnum q) 0 then "-" else "")%string,
    (Format.digits (c / 100)),
    (Format.group (Format.digits (c / 100))),
    (Format.two_digits (c mod 100)).
  assert (forallb (fun x => negb (Ascii.eqb x ","))
            (list_ascii_of_string (Format.digits (c / 100))) = true) as Hnc.
  { pose proof (digits_plain (c / 100)) as Hp. revert Hp.
    apply forallb_weaken. intros x Hx.
    apply andb_true_iff in Hx as [Hx _]. now apply andb_true_iff in Hx as [Hx _]. }
  split; [reflexivity |]. split; [destruct (Z.ltb (Qnum q) 0); auto |].
  split; [reflexivity |]. split; [now apply remove_commas_group |].
  split; [apply two_digits_length; apply N.mod_lt; discriminate |].
  cbv zeta. unfold Format.group.
  rewrite list_ascii_of_string_of_list_ascii, rev_involutive. split.
  - rewrite group3_length, length_rev.
    now rewrite list_of_string_length.
  - intros i Hi. apply group3_commas; [| exact Hi]. now rewrite forallb_rev.
Qed.

(* ================================================================== *)
(** * How the stages compose *)

(** X13 (lines 55-58): flattening twice is flattening once. On the
    frame it produces, the relabelling succeeds again and changes
    nothing: flattened labels are strings, which pass through. *)
Theorem SchemaNormalizer_idempotent (data : DataFrame) :
  exists data',
    SchemaNormalizer data = Some data' /\
    SchemaNormalizer data' = Some data'.
Proof.
  eexists. split; [apply SchemaNormalizer_relabels |].
  rewrite SchemaNormalizer_relabels. cbn [index cols]. do 2 f_equal.
  rewrite map_map. apply map_ext. intros [l c]. cbn [fst snd].
  now destruct l.
Qed.
